(** * Constrained-likelihood score tests for two proportions

    A shallow embedding of [src/result-validation/two-group.js] and of the
    leaves it calls ([core/safe-math], [core/normal-distribution],
    [utils/lru-cache], [core/confidence-interval]), with [core/effect-size].

    JavaScript numbers are IEEE 754 binary64 values, which is what Rocq's
    primitive [float] is: [+ - * /], [Math.sqrt], [Math.abs] and the
    comparisons are the same correctly rounded operations, with the same
    NaN and infinity behaviour.  The two solvers and the confidence-interval
    inverter are written once against a small arithmetic interface
    ([JSNumber]) and read at two instances: binary64, which is what the
    program computes, and the real numbers, which is the arithmetic the
    mathematics of the method is stated in. *)

From Stdlib Require Import ZArith QArith Floats Reals Lra Lia String List.
From Stdlib Require Import SpecFloat FloatAxioms.
Import ListNotations.

Set Warnings "-inexact-float".

(** ** The arithmetic interface *)

Declare Scope js_scope.
Delimit Scope js_scope with js.

Class JSNumber (num : Type) : Type := {
  lit : Q -> num;                    (* a decimal literal of the source *)
  plus : num -> num -> num;
  minus : num -> num -> num;
  times : num -> num -> num;
  divide : num -> num -> num;
  negate : num -> num;               (* unary minus *)
  Math_sqrt : num -> num;
  Math_abs : num -> num;
  Math_max : num -> num -> num;
  Math_min : num -> num -> num;
  lt : num -> num -> bool;           (* a < b *)
  le : num -> num -> bool            (* a <= b *)
}.

Notation "x + y" := (plus x y) : js_scope.
Notation "x - y" := (minus x y) : js_scope.
Notation "x * y" := (times x y) : js_scope.
Notation "x / y" := (divide x y) : js_scope.
Notation "x <? y" := (lt x y) (at level 70, no associativity) : js_scope.
Notation "x <=? y" := (le x y) (at level 70, no associativity) : js_scope.
Notation "x >? y" := (lt y x) (at level 70, no associativity, only parsing) : js_scope.
Notation "x >=? y" := (le y x) (at level 70, no associativity, only parsing) : js_scope.
Notation "x >? y" := (PrimFloat.ltb y x) (at level 70, no associativity, only parsing) : float_scope.
Notation "x >=? y" := (PrimFloat.leb y x) (at level 70, no associativity, only parsing) : float_scope.
Notation "- x" := (negate x) : js_scope.
Notation "' q" := (lit q%Q) (at level 1, q constr at level 1, format "' q") : js_scope.

(** ** The solvers and the interval inverter *)

Section Solvers.

Context {num : Type} {JSN : JSNumber num}.
Local Open Scope js_scope.

(** The object [{p1_rmle, p2_rmle}] returned by [calculateFMRMLE]. *)
Record RMLE : Type := mkRMLE { p1_rmle : num; p2_rmle : num }.

(** The object [{p1_mle, p2_mle}] returned by [calculateMNConstrainedMLE]. *)
Record MLE : Type := mkMLE { p1_mle : num; p2_mle : num }.

(** The body of the Newton-Raphson [for] loop of [calculateFMRMLE], with
    [iters] iterations left; the result is [p1_est] when the loop is left,
    by [break] or by the iteration cap. *)
Fixpoint FMRMLE_loop (p1_obs p2_obs n1 n2 delta0 p_pooled : num)
    (iters : nat) (p1_est : num) : num :=
  match iters with
  | O => p1_est
  | S iters' =>
      let p2_est := p1_est + delta0 in
      if (p2_est <=? '0) || (p2_est >=? '1) || (p1_est <=? '0) || (p1_est >=? '1)
      then Math_max '0.001 (Math_min ('0.999 - delta0) (p_pooled - delta0 / '2))
      else
        let score :=
          n1 * (p1_obs / p1_est - ('1 - p1_obs) / ('1 - p1_est)) +
          n2 * (p2_obs / p2_est - ('1 - p2_obs) / ('1 - p2_est)) in
        let info :=
          n1 * (p1_obs / (p1_est * p1_est) +
                ('1 - p1_obs) / (('1 - p1_est) * ('1 - p1_est))) +
          n2 * (p2_obs / (p2_est * p2_est) +
                ('1 - p2_obs) / (('1 - p2_est) * ('1 - p2_est))) in
        let delta_p := score / info in
        let p1_est := p1_est + delta_p in
        if Math_abs delta_p <? '1e-8 then p1_est
        else
          FMRMLE_loop p1_obs p2_obs n1 n2 delta0 p_pooled iters'
            (Math_max '0.001 (Math_min ('0.999 - Math_max '0 delta0) p1_est))
  end.

Definition calculateFMRMLE (p1_obs p2_obs n1 n2 delta0 : num) : RMLE :=
  let p_pooled := (n1 * p1_obs + n2 * p2_obs) / (n1 + n2) in
  let p1_est := Math_max '0.001 (Math_min '0.999 (p_pooled - delta0 / '2)) in
  let p1_est := FMRMLE_loop p1_obs p2_obs n1 n2 delta0 p_pooled 20 p1_est in
  let p2_est := Math_max '0.001 (Math_min '0.999 (p1_est + delta0)) in
  {| p1_rmle := p1_est; p2_rmle := p2_est |}.

(** [scoreFunc], the closure of [calculateMNConstrainedMLE]. *)
Definition scoreFunc (x1 n1 x2 n2 delta0 p1 : num) : num :=
  let p2 := p1 + delta0 in
  x1 / p1 - (n1 - x1) / ('1 - p1) + x2 / p2 - (n2 - x2) / ('1 - p2).

(** The bisection [for] loop of [calculateMNConstrainedMLE] together with the
    two statements after it. *)
Fixpoint MNMLE_loop (x1 n1 x2 n2 delta0 : num) (iters : nat) (lo hi : num) : MLE :=
  match iters with
  | O =>
      let p1_est := (lo + hi) / '2 in
      {| p1_mle := p1_est; p2_mle := p1_est + delta0 |}
  | S iters' =>
      let mid := (lo + hi) / '2 in
      let score_mid := scoreFunc x1 n1 x2 n2 delta0 mid in
      if (Math_abs score_mid <? '1e-12) || (Math_abs (hi - lo) <? '1e-12)
      then {| p1_mle := mid; p2_mle := mid + delta0 |}
      else if score_mid >? '0
           then MNMLE_loop x1 n1 x2 n2 delta0 iters' mid hi
           else MNMLE_loop x1 n1 x2 n2 delta0 iters' lo mid
  end.

Definition MN_p1_min (delta0 : num) : num := Math_max '1e-8 (- delta0 + '1e-8).
Definition MN_p1_max (delta0 : num) : num :=
  Math_min ('1 - '1e-8) ('1 - delta0 - '1e-8).

Definition calculateMNConstrainedMLE (x1 n1 x2 n2 delta0 : num) : MLE :=
  let N := n1 + n2 in
  if Math_abs delta0 <? '1e-10 then
    let p_pooled := (x1 + x2) / N in
    {| p1_mle := p_pooled; p2_mle := p_pooled |}
  else
    let p1_min := MN_p1_min delta0 in
    let p1_max := MN_p1_max delta0 in
    if p1_min >=? p1_max then
      let p1_est := Math_max '1e-8 (Math_min ('1 - '1e-8) ((p1_min + p1_max) / '2)) in
      let p2_est := Math_max '1e-8 (Math_min ('1 - '1e-8) (p1_est + delta0)) in
      {| p1_mle := p1_est; p2_mle := p2_est |}
    else
      let score_lo := scoreFunc x1 n1 x2 n2 delta0 p1_min in
      let score_hi := scoreFunc x1 n1 x2 n2 delta0 p1_max in
      if score_lo <=? '0 then {| p1_mle := p1_min; p2_mle := p1_min + delta0 |}
      else if score_hi >=? '0 then {| p1_mle := p1_max; p2_mle := p1_max + delta0 |}
      else MNMLE_loop x1 n1 x2 n2 delta0 100 p1_min p1_max.

(** [calcZ], the closure of [findMNCIBound]. *)
Definition calcZ (x1 n1 x2 n2 diff delta0 : num) : num :=
  let N := n1 + n2 in
  let correction := N / (N - '1) in
  let mle := calculateMNConstrainedMLE x1 n1 x2 n2 delta0 in
  let var_mn :=
    correction * ((p1_mle mle * ('1 - p1_mle mle)) / n1 +
                  (p2_mle mle * ('1 - p2_mle mle)) / n2) in
  let se_mn := Math_sqrt (Math_max var_mn '1e-12) in
  (diff - delta0) / se_mn.

(** The two search loops of [findMNCIBound]; each returns the bracket
    [(lo, hi)] it stops with. *)
Fixpoint lower_loop (x1 n1 x2 n2 diff z_alpha : num) (iters : nat) (lo hi : num)
    : num * num :=
  match iters with
  | O => (lo, hi)
  | S iters' =>
      let mid := (lo + hi) / '2 in
      let z := calcZ x1 n1 x2 n2 diff mid in
      let '(lo, hi) := if z >? z_alpha then (mid, hi) else (lo, mid) in
      if Math_abs (hi - lo) <? '1e-8 then (lo, hi)
      else lower_loop x1 n1 x2 n2 diff z_alpha iters' lo hi
  end.

Fixpoint upper_loop (x1 n1 x2 n2 diff z_alpha : num) (iters : nat) (lo hi : num)
    : num * num :=
  match iters with
  | O => (lo, hi)
  | S iters' =>
      let mid := (lo + hi) / '2 in
      let z := calcZ x1 n1 x2 n2 diff mid in
      let '(lo, hi) := if z <? - z_alpha then (lo, mid) else (mid, hi) in
      if Math_abs (hi - lo) <? '1e-8 then (lo, hi)
      else upper_loop x1 n1 x2 n2 diff z_alpha iters' lo hi
  end.

Definition findMNCIBound (x1 n1 x2 n2 diff z_alpha : num) (bound : string) : num :=
  if String.eqb bound "lower" then
    let lo := Math_max (- '0.9999) (diff - '0.5) in
    let hi := diff in
    fst (lower_loop x1 n1 x2 n2 diff z_alpha 100 lo hi)
  else
    let lo := diff in
    let hi := Math_min '0.9999 (diff + '0.5) in
    snd (upper_loop x1 n1 x2 n2 diff z_alpha 100 lo hi).

End Solvers.

Arguments RMLE num : clear implicits.
Arguments MLE num : clear implicits.

(** ** Binary64: the numbers the program runs on *)

Module Binary64.

Definition float_of_Z (z : Z) : float :=
  match z with
  | Z0 => 0%float
  | Zpos p => of_uint63 (Uint63.of_Z (Zpos p))
  | Zneg p => PrimFloat.opp (of_uint63 (Uint63.of_Z (Zpos p)))
  end.

(** A decimal literal [m / 10^k] denotes the binary64 value nearest to it;
    numerator and denominator of every literal of the source are exact
    binary64 integers, so one correctly rounded division yields it. *)
Definition float_lit (q : Q) : float :=
  PrimFloat.div (float_of_Z (Qnum q)) (float_of_Z (Zpos (Qden q))).

(** [Math.max] and [Math.min]: NaN if an argument is NaN, and [+0] counts
    as larger than [-0]. *)
Definition float_max (a b : float) : float :=
  if is_nan a || is_nan b then nan
  else if PrimFloat.ltb a b then b
  else if PrimFloat.ltb b a then a
  else if get_sign a then b else a.

Definition float_min (a b : float) : float :=
  if is_nan a || is_nan b then nan
  else if PrimFloat.ltb a b then a
  else if PrimFloat.ltb b a then b
  else if get_sign a then a else b.

#[export] Instance float_JSNumber : JSNumber float := {|
  lit := float_lit;
  plus := PrimFloat.add;
  minus := PrimFloat.sub;
  times := PrimFloat.mul;
  divide := PrimFloat.div;
  negate := PrimFloat.opp;
  Math_sqrt := PrimFloat.sqrt;
  Math_abs := PrimFloat.abs;
  Math_max := float_max;
  Math_min := float_min;
  lt := PrimFloat.ltb;
  le := PrimFloat.leb
|}.

End Binary64.

(** ** Exact arithmetic: the same program text over the real numbers *)

Module Exact.



End Exact.

(** ** Result objects *)

(** The object returned by [calculateMNResult] and [calculateFMResult]. *)
Module Score.
Record t : Type := mk {
  ci_lower : float;
  ci_upper : float;
  z_score : float;
  p_value : float;
  se : float
}.
End Score.

(** The object returned by the proportion result functions.  [label] holds
    the numbers that the template string [testStatisticLabel] prints (before
    their [toFixed(2)] formatting); the early-return objects, which have no
    such field, carry the empty list.  The constant fields
    [testStatisticType] and [df] are left out. *)
Module Result.
Record t : Type := mk {
  p1 : float;
  p2 : float;
  diff : float;
  ci_lower : float;
  ci_upper : float;
  p_value : float;
  testStatistic : float;
  isNonInferior : bool;
  label : list float
}.
End Result.

(** The object returned by the continuous-endpoint result functions. *)
Module ResultContinuous.
Record t : Type := mk {
  mean1 : float;
  mean2 : float;
  diff : float;
  ci_lower : float;
  ci_upper : float;
  p_value : float;
  testStatistic : float;
  isNonInferior : bool;
  label : list float
}.
End ResultContinuous.

(** The object [{lower, upper}] returned by [calculateWilsonCI]. *)
Record WilsonCI : Type := mkWilsonCI { lower : float; upper : float }.

(** ** [utils/lru-cache]: the cache as a list, most recently used first *)

Definition LRUCache : Type := list (string * float).

Fixpoint cache_lookup (key : string) (c : LRUCache) : option float :=
  match c with
  | [] => None
  | (k, v) :: c' => if String.eqb k key then Some v else cache_lookup key c'
  end.

Fixpoint cache_remove (key : string) (c : LRUCache) : LRUCache :=
  match c with
  | [] => []
  | (k, v) :: c' => if String.eqb k key then c' else (k, v) :: cache_remove key c'
  end.

Definition LRU_get (key : string) (c : LRUCache) : option float * LRUCache :=
  match cache_lookup key c with
  | None => (None, c)
  | Some v => (Some v, (key, v) :: cache_remove key c)
  end.

Definition LRU_put (capacity : nat) (key : string) (value : float) (c : LRUCache)
    : LRUCache :=
  match cache_lookup key c with
  | Some _ => (key, value) :: cache_remove key c
  | None =>
      let c' := (key, value) :: c in
      if Nat.ltb capacity (List.length c') then removelast c' else c'
  end.

(** ** The leaves and the result functions, on binary64 *)

Section TwoGroup.

Import Binary64.
Local Open Scope float_scope.

(** [Math.exp], [Math.log] and [Math.pow] are implementation-approximated in
    ECMAScript, and [Number.prototype.toFixed] is a formatting routine: the
    four are taken as given. *)
Variable Math_exp : float -> float.
Variable Math_log : float -> float.
Variable Math_pow : float -> float -> float.
Variable toFixed10 : float -> string.

Definition Math_PI : float := 3.141592653589793.

(** *** [core/safe-math] *)

Definition safeNumber (value fallback : float) : float :=
  if is_finite value then value else fallback.

Definition safeDivide (numerator denominator fallback : float) : float :=
  let a := safeNumber numerator 0 in
  let b := safeNumber denominator 0 in
  if Math_abs b <? 1e-10 then fallback
  else
    let result := a / b in
    if is_finite result then result else fallback.

(** *** [core/normal-distribution] *)

Definition normalCDF (x : float) : float :=
  let z := x in
  let z := if z <? 0 then - z else z in
  let b0 := 0.2316419 in
  let b1 := 0.31938153 in
  let b2 := -0.356563782 in
  let b3 := 1.781477937 in
  let b4 := -1.821255978 in
  let b5 := 1.330274429 in
  let t := 1 / (1 + b0 * z) in
  let poly := t * ((((b5 * t + b4) * t + b3) * t + b2) * t + b1) in
  let p := 1 - (1 / Math_sqrt (2 * Math_PI)) * Math_exp (-0.5 * z * z) * poly in
  if x <? 0 then 1 - p else p.

Definition normalInverseCache_capacity : nat := 25.

(** Acklam's rational approximation, the part of [normalInverse] after the
    cache lookup. *)
Definition acklam (p : float) : float :=
  let a1 := -3.969683028665376e1 in
  let a2 := 2.209460984245205e2 in
  let a3 := -2.759285104469687e2 in
  let a4 := 1.38357751867269e2 in
  let a5 := -3.066479806614716e1 in
  let a6 := 2.506628277459239 in
  let b1 := -5.447609879822406e1 in
  let b2 := 1.615858368580409e2 in
  let b3 := -1.556989798598866e2 in
  let b4 := 6.680131188771972e1 in
  let b5 := -1.328068155288572e1 in
  let c1 := -7.784894002430293e-3 in
  let c2 := -3.223964580411365e-1 in
  let c3 := -2.400758277161838 in
  let c4 := -2.549732539343734 in
  let c5 := 4.374664141464968 in
  let c6 := 2.938163982698783 in
  let d1 := 7.784695709041462e-3 in
  let d2 := 3.224671290700398e-1 in
  let d3 := 2.445134137142996 in
  let d4 := 3.754408661907416 in
  let x_low := 0.02425 in
  let x_high := 1 - x_low in
  if p <? x_low then
    let q := Math_sqrt (-2 * Math_log p) in
    (((((c1 * q + c2) * q + c3) * q + c4) * q + c5) * q + c6) /
    ((((d1 * q + d2) * q + d3) * q + d4) * q + 1)
  else if p <=? x_high then
    let q := p - 0.5 in
    let r := q * q in
    ((((((a1 * r + a2) * r + a3) * r + a4) * r + a5) * r + a6) * q) /
    (((((b1 * r + b2) * r + b3) * r + b4) * r + b5) * r + 1)
  else
    let q := Math_sqrt (-2 * Math_log (1 - p)) in
    - (((((c1 * q + c2) * q + c3) * q + c4) * q + c5) * q + c6) /
    ((((d1 * q + d2) * q + d3) * q + d4) * q + 1).

(** [normalInverse] reads and updates the module-level cache: the cache is
    passed in and handed back. *)
Definition normalInverse (cache : LRUCache) (p : float) : float * LRUCache :=
  if p <=? 0 then (neg_infinity, cache)
  else if 1 <=? p then (infinity, cache)
  else
    let key := toFixed10 p in
    match LRU_get key cache with
    | (Some cached, cache) => (cached, cache)
    | (None, cache) =>
        let result := acklam p in
        (result, LRU_put normalInverseCache_capacity key result cache)
    end.

(** *** [core/confidence-interval] *)

Definition calculateWilsonCI (x n z : float) : WilsonCI :=
  let x := safeNumber x 0 in
  let n := safeNumber n 1 in
  if n =? 0 then {| lower := 0; upper := 0 |}
  else
    let p := safeDivide x n 0 in
    let z2 := z * z in
    let denom := 1 + safeDivide z2 n 0 in
    let center := safeDivide (p + z2 / (2 * n)) denom p in
    let sqrtTerm := (p * (1 - p)) / n + z2 / (4 * n * n) in
    let safeSqrtTerm := Math_max 0 sqrtTerm in
    let margin := safeDivide (z * Math_sqrt safeSqrtTerm) denom 0 in
    let safeMargin := Math_min margin 1 in
    let lower := Math_max 0 (center - safeMargin) in
    let upper := Math_min 1 (center + safeMargin) in
    {| lower := lower; upper := upper |}.

(** *** [result-validation/two-group]: the two score chains *)

Definition calculateMNResult (x1 n1 x2 n2 delta0 z_alpha : float) : Score.t :=
  let p1_obs := x1 / n1 in
  let p2_obs := x2 / n2 in
  let diff := p2_obs - p1_obs in
  let mle := calculateMNConstrainedMLE x1 n1 x2 n2 delta0 in
  let N := n1 + n2 in
  let correction := N / (N - 1) in
  let var_mn :=
    correction * ((p1_mle mle * (1 - p1_mle mle)) / n1 +
                  (p2_mle mle * (1 - p2_mle mle)) / n2) in
  let se_mn := Math_sqrt var_mn in
  let z_score := if se_mn >? 0 then (diff - delta0) / se_mn else 0 in
  let p_value := 1 - normalCDF z_score in
  let ci_lower := findMNCIBound x1 n1 x2 n2 diff z_alpha "lower" in
  let ci_upper := findMNCIBound x1 n1 x2 n2 diff z_alpha "upper" in
  {| Score.ci_lower := ci_lower;
     Score.ci_upper := ci_upper;
     Score.z_score := z_score;
     Score.p_value := p_value;
     Score.se := se_mn |}.

Definition calculateFMResult (p1 p2 n1 n2 delta0 z_alpha : float) : Score.t :=
  let diff := p2 - p1 in
  let rmle := calculateFMRMLE p1 p2 n1 n2 delta0 in
  let var1 := (p1_rmle rmle * (1 - p1_rmle rmle)) / n1 in
  let var2 := (p2_rmle rmle * (1 - p2_rmle rmle)) / n2 in
  let se_h0 := Math_sqrt (var1 + var2) in
  let z_score := if se_h0 >? 0 then (diff - delta0) / se_h0 else 0 in
  let p_value := 1 - normalCDF z_score in
  let var1_obs := (p1 * (1 - p1)) / n1 in
  let var2_obs := (p2 * (1 - p2)) / n2 in
  let se_obs := Math_sqrt (var1_obs + var2_obs) in
  let ci_lower := diff - z_alpha * se_obs in
  let ci_upper := diff + z_alpha * se_obs in
  {| Score.ci_lower := ci_lower;
     Score.ci_upper := ci_upper;
     Score.z_score := z_score;
     Score.p_value := p_value;
     Score.se := se_h0 |}.

(** *** [result-validation/two-group]: the result functions *)

(** The object literal [{p1: 0, p2: 0, diff: 0, ci_lower: 0, ci_upper: 0,
    p_value: 1, testStatistic: 0, isNonInferior: false}] of the early
    returns. *)
Definition early_return : Result.t :=
  {| Result.p1 := 0; Result.p2 := 0; Result.diff := 0;
     Result.ci_lower := 0; Result.ci_upper := 0; Result.p_value := 1;
     Result.testStatistic := 0; Result.isNonInferior := false;
     Result.label := [] |}.

(** The rates [p1], [p2] as every proportion result function computes them. *)
Definition rates (n1 s1 n2 s2 : float) (useContinuity : bool) : float * float :=
  if useContinuity
  then (safeDivide (s1 + 0.5) (n1 + 1) 0, safeDivide (s2 + 0.5) (n2 + 1) 0)
  else (safeDivide s1 n1 0, safeDivide s2 n2 0).

Definition calculateNIResult (cache : LRUCache)
    (n1 s1 n2 s2 delta alpha : float) (useContinuity : bool) (method : string)
    : Result.t * LRUCache :=
  let n1 := safeNumber n1 1 in
  let s1 := safeNumber s1 0 in
  let n2 := safeNumber n2 1 in
  let s2 := safeNumber s2 0 in
  let delta := safeNumber delta 0 in
  let alpha := safeNumber alpha 0 in
  let '(p1, p2) := rates n1 s1 n2 s2 useContinuity in
  let diff := p2 - p1 in
  let '(z_alpha, cache) := normalInverse cache (1 - alpha) in
  if negb (is_finite z_alpha) then (early_return, cache)
  else
    let result (ci_lower ci_upper z_score p_value : float) : Result.t :=
      {| Result.p1 := p1; Result.p2 := p2; Result.diff := diff;
         Result.ci_lower := ci_lower; Result.ci_upper := ci_upper;
         Result.p_value := p_value; Result.testStatistic := z_score;
         Result.isNonInferior := ci_lower >? - delta;
         Result.label := [z_score] |} in
    if String.eqb method "fm" then
      let fmResult := calculateFMResult p1 p2 n1 n2 (- delta) z_alpha in
      (result (Score.ci_lower fmResult) (Score.ci_upper fmResult)
              (Score.z_score fmResult) (Score.p_value fmResult), cache)
    else if String.eqb method "wilson" then
      let wilson1 := calculateWilsonCI s1 n1 z_alpha in
      let wilson2 := calculateWilsonCI s2 n2 z_alpha in
      let l1 := lower wilson1 in
      let u1 := upper wilson1 in
      let l2 := lower wilson2 in
      let u2 := upper wilson2 in
      let ci_lower := diff - Math_sqrt (Math_pow (p2 - l2) 2 + Math_pow (u1 - p1) 2) in
      let ci_upper := diff + Math_sqrt (Math_pow (u2 - p2) 2 + Math_pow (p1 - l1) 2) in
      let variance1 := safeDivide (p1 * (1 - p1)) n1 0 in
      let variance2 := safeDivide (p2 * (1 - p2)) n2 0 in
      let se := Math_sqrt (variance1 + variance2) in
      let z_score := safeDivide (diff + delta) se 0 in
      let p_value := 1 - normalCDF z_score in
      (result ci_lower ci_upper z_score p_value, cache)
    else if String.eqb method "mn" then
      let mnResult := calculateMNResult s1 n1 s2 n2 (- delta) z_alpha in
      (result (Score.ci_lower mnResult) (Score.ci_upper mnResult)
              (Score.z_score mnResult) (Score.p_value mnResult), cache)
    else
      let variance1 := safeDivide (p1 * (1 - p1)) n1 0 in
      let variance2 := safeDivide (p2 * (1 - p2)) n2 0 in
      let se := Math_sqrt (variance1 + variance2) in
      if negb (is_finite se) || (se =? 0) then (early_return, cache)
      else
        let ci_lower := diff - z_alpha * se in
        let ci_upper := diff + z_alpha * se in
        let z_score := safeDivide (diff + delta) se 0 in
        let p_value := 1 - normalCDF z_score in
        (result ci_lower ci_upper z_score p_value, cache).

Definition calculateSupResult (cache : LRUCache)
    (n1 s1 n2 s2 alpha : float) (useContinuity : bool) (method : string)
    : Result.t * LRUCache :=
  let n1 := safeNumber n1 1 in
  let s1 := safeNumber s1 0 in
  let n2 := safeNumber n2 1 in
  let s2 := safeNumber s2 0 in
  let alpha := safeNumber alpha 0 in
  let '(p1, p2) := rates n1 s1 n2 s2 useContinuity in
  let diff := p2 - p1 in
  let '(z_alpha, cache) := normalInverse cache (1 - alpha) in
  if negb (is_finite z_alpha) then (early_return, cache)
  else
    let result (ci_lower ci_upper z_score p_value : float) : Result.t :=
      {| Result.p1 := p1; Result.p2 := p2; Result.diff := diff;
         Result.ci_lower := ci_lower; Result.ci_upper := ci_upper;
         Result.p_value := p_value; Result.testStatistic := z_score;
         Result.isNonInferior := ci_lower >? 0;
         Result.label := [z_score] |} in
    if String.eqb method "fm" then
      let fmResult := calculateFMResult p1 p2 n1 n2 0 z_alpha in
      (result (Score.ci_lower fmResult) (Score.ci_upper fmResult)
              (Score.z_score fmResult) (Score.p_value fmResult), cache)
    else if String.eqb method "wilson" then
      let wilson1 := calculateWilsonCI s1 n1 z_alpha in
      let wilson2 := calculateWilsonCI s2 n2 z_alpha in
      let l1 := lower wilson1 in
      let u1 := upper wilson1 in
      let l2 := lower wilson2 in
      let u2 := upper wilson2 in
      let ci_lower := diff - Math_sqrt (Math_pow (p2 - l2) 2 + Math_pow (u1 - p1) 2) in
      let ci_upper := diff + Math_sqrt (Math_pow (u2 - p2) 2 + Math_pow (p1 - l1) 2) in
      let variance1 := safeDivide (p1 * (1 - p1)) n1 0 in
      let variance2 := safeDivide (p2 * (1 - p2)) n2 0 in
      let se := Math_sqrt (variance1 + variance2) in
      let z_score := safeDivide diff se 0 in
      let p_value := 1 - normalCDF z_score in
      (result ci_lower ci_upper z_score p_value, cache)
    else if String.eqb method "mn" then
      let mnResult := calculateMNResult s1 n1 s2 n2 0 z_alpha in
      (result (Score.ci_lower mnResult) (Score.ci_upper mnResult)
              (Score.z_score mnResult) (Score.p_value mnResult), cache)
    else
      let variance1 := safeDivide (p1 * (1 - p1)) n1 0 in
      let variance2 := safeDivide (p2 * (1 - p2)) n2 0 in
      let se := Math_sqrt (variance1 + variance2) in
      if negb (is_finite se) || (se =? 0) then (early_return, cache)
      else
        let ci_lower := diff - z_alpha * se in
        let ci_upper := diff + z_alpha * se in
        let z_score := safeDivide diff se 0 in
        let p_value := 1 - normalCDF z_score in
        (result ci_lower ci_upper z_score p_value, cache).

(** The method dispatch of [calculateEqResult]: [Some (ci_lower, ci_upper, se)],
    or [None] where the function returns its early-return object. *)
Definition calculateEqResult_method (p1 p2 n1 s1 n2 s2 diff z_alpha : float)
    (method : string) : option (float * float * float) :=
  if String.eqb method "fm" then
    let var1 := safeDivide (p1 * (1 - p1)) n1 0 in
    let var2 := safeDivide (p2 * (1 - p2)) n2 0 in
    let se := Math_sqrt (var1 + var2) in
    if negb (is_finite se) || (se =? 0) then None
    else Some (diff - z_alpha * se, diff + z_alpha * se, se)
  else if String.eqb method "wilson" then
    let wilson1 := calculateWilsonCI s1 n1 z_alpha in
    let wilson2 := calculateWilsonCI s2 n2 z_alpha in
    let l1 := lower wilson1 in
    let u1 := upper wilson1 in
    let l2 := lower wilson2 in
    let u2 := upper wilson2 in
    let ci_lower := diff - Math_sqrt (Math_pow (p2 - l2) 2 + Math_pow (u1 - p1) 2) in
    let ci_upper := diff + Math_sqrt (Math_pow (u2 - p2) 2 + Math_pow (p1 - l1) 2) in
    let variance1 := safeDivide (p1 * (1 - p1)) n1 0 in
    let variance2 := safeDivide (p2 * (1 - p2)) n2 0 in
    let se := Math_sqrt (variance1 + variance2) in
    Some (ci_lower, ci_upper, se)
  else if String.eqb method "mn" then
    let mnResult := calculateMNResult s1 n1 s2 n2 0 z_alpha in
    Some (Score.ci_lower mnResult, Score.ci_upper mnResult, Score.se mnResult)
  else
    let variance1 := safeDivide (p1 * (1 - p1)) n1 0 in
    let variance2 := safeDivide (p2 * (1 - p2)) n2 0 in
    let se := Math_sqrt (variance1 + variance2) in
    if negb (is_finite se) || (se =? 0) then None
    else Some (diff - z_alpha * se, diff + z_alpha * se, se).

Definition calculateEqResult (cache : LRUCache)
    (n1 s1 n2 s2 delta alpha : float) (useContinuity : bool) (method : string)
    : Result.t * LRUCache :=
  let n1 := safeNumber n1 1 in
  let s1 := safeNumber s1 0 in
  let n2 := safeNumber n2 1 in
  let s2 := safeNumber s2 0 in
  let delta := safeNumber delta 0 in
  let alpha := safeNumber alpha 0 in
  let '(p1, p2) := rates n1 s1 n2 s2 useContinuity in
  let diff := p2 - p1 in
  let '(z_alpha, cache) := normalInverse cache (1 - alpha / 2) in
  if negb (is_finite z_alpha) then (early_return, cache)
  else
    match calculateEqResult_method p1 p2 n1 s1 n2 s2 diff z_alpha method with
    | None => (early_return, cache)
    | Some (ci_lower, ci_upper, se) =>
        let z1 := safeDivide (diff + delta) se 0 in
        let z2 := safeDivide (diff - delta) se 0 in
        let p1_value := 1 - normalCDF z1 in
        let p2_value := normalCDF z2 in
        let p_value := Math_max p1_value p2_value in
        ({| Result.p1 := p1; Result.p2 := p2; Result.diff := diff;
            Result.ci_lower := ci_lower; Result.ci_upper := ci_upper;
            Result.p_value := p_value;
            Result.testStatistic := (z1 + z2) / 2;
            Result.isNonInferior := (ci_lower >? - delta) && (ci_upper <? delta);
            Result.label := [z1; z2] |}, cache)
    end.

(** *** [result-validation/two-group]: continuous endpoints *)

Definition early_return_continuous (mean1 mean2 diff : float) : ResultContinuous.t :=
  {| ResultContinuous.mean1 := mean1; ResultContinuous.mean2 := mean2;
     ResultContinuous.diff := diff;
     ResultContinuous.ci_lower := 0; ResultContinuous.ci_upper := 0;
     ResultContinuous.p_value := 1; ResultContinuous.testStatistic := 0;
     ResultContinuous.isNonInferior := false; ResultContinuous.label := [] |}.

(** The pooled standard error of the three continuous result functions. *)
Definition pooled_se (n1 sd1 n2 sd2 : float) : float :=
  let pooledVar :=
    safeDivide ((n1 - 1) * sd1 * sd1 + (n2 - 1) * sd2 * sd2) (n1 + n2 - 2) 0 in
  Math_sqrt (pooledVar * (1 / n1 + 1 / n2)).

Definition calculateNIResultContinuous (cache : LRUCache)
    (n1 mean1 sd1 n2 mean2 sd2 delta alpha : float)
    : ResultContinuous.t * LRUCache :=
  let n1 := safeNumber n1 1 in
  let mean1 := safeNumber mean1 0 in
  let sd1 := safeNumber sd1 1 in
  let n2 := safeNumber n2 1 in
  let mean2 := safeNumber mean2 0 in
  let sd2 := safeNumber sd2 1 in
  let delta := safeNumber delta 0 in
  let alpha := safeNumber alpha 0 in
  let diff := mean2 - mean1 in
  let se := pooled_se n1 sd1 n2 sd2 in
  if negb (is_finite se) || (se =? 0) then (early_return_continuous 0 0 0, cache)
  else
    let '(z_alpha, cache) := normalInverse cache (1 - alpha) in
    if negb (is_finite z_alpha)
    then (early_return_continuous mean1 mean2 diff, cache)
    else
      let ci_lower := diff - z_alpha * se in
      let ci_upper := diff + z_alpha * se in
      let t_score := safeDivide (diff + delta) se 0 in
      let p_value := 1 - normalCDF t_score in
      ({| ResultContinuous.mean1 := mean1; ResultContinuous.mean2 := mean2;
          ResultContinuous.diff := diff;
          ResultContinuous.ci_lower := ci_lower;
          ResultContinuous.ci_upper := ci_upper;
          ResultContinuous.p_value := p_value;
          ResultContinuous.testStatistic := t_score;
          ResultContinuous.isNonInferior := ci_lower >? - delta;
          ResultContinuous.label := [t_score] |}, cache).

Definition calculateSupResultContinuous (cache : LRUCache)
    (n1 mean1 sd1 n2 mean2 sd2 alpha : float)
    : ResultContinuous.t * LRUCache :=
  let n1 := safeNumber n1 1 in
  let mean1 := safeNumber mean1 0 in
  let sd1 := safeNumber sd1 1 in
  let n2 := safeNumber n2 1 in
  let mean2 := safeNumber mean2 0 in
  let sd2 := safeNumber sd2 1 in
  let alpha := safeNumber alpha 0 in
  let diff := mean2 - mean1 in
  let se := pooled_se n1 sd1 n2 sd2 in
  if negb (is_finite se) || (se =? 0) then (early_return_continuous 0 0 0, cache)
  else
    let '(z_alpha, cache) := normalInverse cache (1 - alpha) in
    if negb (is_finite z_alpha)
    then (early_return_continuous mean1 mean2 diff, cache)
    else
      let ci_lower := diff - z_alpha * se in
      let ci_upper := diff + z_alpha * se in
      let t_score := safeDivide diff se 0 in
      let p_value := 1 - normalCDF t_score in
      ({| ResultContinuous.mean1 := mean1; ResultContinuous.mean2 := mean2;
          ResultContinuous.diff := diff;
          ResultContinuous.ci_lower := ci_lower;
          ResultContinuous.ci_upper := ci_upper;
          ResultContinuous.p_value := p_value;
          ResultContinuous.testStatistic := t_score;
          ResultContinuous.isNonInferior := ci_lower >? 0;
          ResultContinuous.label := [t_score] |}, cache).

Definition calculateEqResultContinuous (cache : LRUCache)
    (n1 mean1 sd1 n2 mean2 sd2 delta alpha : float)
    : ResultContinuous.t * LRUCache :=
  let n1 := safeNumber n1 1 in
  let mean1 := safeNumber mean1 0 in
  let sd1 := safeNumber sd1 1 in
  let n2 := safeNumber n2 1 in
  let mean2 := safeNumber mean2 0 in
  let sd2 := safeNumber sd2 1 in
  let delta := safeNumber delta 0 in
  let alpha := safeNumber alpha 0 in
  let diff := mean2 - mean1 in
  let se := pooled_se n1 sd1 n2 sd2 in
  if negb (is_finite se) || (se =? 0) then (early_return_continuous 0 0 0, cache)
  else
    let '(z_alpha, cache) := normalInverse cache (1 - alpha / 2) in
    if negb (is_finite z_alpha)
    then (early_return_continuous mean1 mean2 diff, cache)
    else
      let ci_lower := diff - z_alpha * se in
      let ci_upper := diff + z_alpha * se in
      let t1 := safeDivide (diff + delta) se 0 in
      let t2 := safeDivide (diff - delta) se 0 in
      let p1_value := 1 - normalCDF t1 in
      let p2_value := normalCDF t2 in
      let p_value := Math_max p1_value p2_value in
      ({| ResultContinuous.mean1 := mean1; ResultContinuous.mean2 := mean2;
          ResultContinuous.diff := diff;
          ResultContinuous.ci_lower := ci_lower;
          ResultContinuous.ci_upper := ci_upper;
          ResultContinuous.p_value := p_value;
          ResultContinuous.testStatistic := (t1 + t2) / 2;
          ResultContinuous.isNonInferior := (ci_lower >? - delta) && (ci_upper <? delta);
          ResultContinuous.label := [t1; t2] |}, cache).

End TwoGroup.

(** ** The specification's variance formulas *)




(** ** What the searches of the interval inverter maintain *)

Section Brackets.

Context {num : Type} {JSN : JSNumber num}.
Local Open Scope js_scope.



End Brackets.

(** ** Feasibility of a hypothesised difference *)


(** ** What a search of the inverter has located when it stops *)



(** ** The clip interval of the Newton-Raphson solver *)

(** NaN, or a number of the closed interval from [0.001] to [0.999]. *)
Definition in_unit_clip (r : float) : bool :=
  is_nan r || ((0.001 <=? r) && (r <=? 0.999))%float.

(** ** [core/safe-math]: comparing with a tolerance *)

Section FloatComparison.

Import Binary64.
Local Open Scope float_scope.

Definition FLOAT_EPSILON : float := 1e-9.

(** The parameter [epsilon] of the five comparisons defaults to
    [FLOAT_EPSILON]; here it is always given. *)
Definition floatEqual (a b epsilon : float) : bool :=
  Math_abs (a - b) <=? epsilon.

Definition floatGte (a b epsilon : float) : bool := a >=? b - epsilon.

Definition floatLte (a b epsilon : float) : bool := a <=? b + epsilon.

Definition floatGt (a b epsilon : float) : bool := a >? b + epsilon.

Definition floatLt (a b epsilon : float) : bool := a <? b - epsilon.

End FloatComparison.

(** ** [utils/lru-cache]: the other methods *)

(** [has], [delete] and [clear]; [size] is the number of entries.  The hit
    and miss counters, which only [getHitRate] and [getStats] read, are not
    part of the model. *)
Definition LRU_has (key : string) (c : LRUCache) : bool :=
  match cache_lookup key c with
  | Some _ => true
  | None => false
  end.

Definition LRU_delete (key : string) (c : LRUCache) : bool * LRUCache :=
  match cache_lookup key c with
  | None => (false, c)
  | Some _ => (true, cache_remove key c)
  end.

Definition LRU_clear (c : LRUCache) : LRUCache := [].

Definition LRU_size (c : LRUCache) : nat := List.length c.

(** A call of one of the methods that change the cache. *)
Inductive LRU_call : Type :=
| call_get (key : string)
| call_put (key : string) (value : float)
| call_delete (key : string)
| call_clear.

Definition LRU_do (capacity : nat) (c : LRUCache) (call : LRU_call) : LRUCache :=
  match call with
  | call_get key => snd (LRU_get key c)
  | call_put key value => LRU_put capacity key value c
  | call_delete key => snd (LRU_delete key c)
  | call_clear => LRU_clear c
  end.

(** The cache after a sequence of calls on [new LRUCache(capacity)]. *)
Definition LRU_after (capacity : nat) (calls : list LRU_call) : LRUCache :=
  fold_left (LRU_do capacity) calls [].

(** The keys of a cache are pairwise different, as in the [Map] that indexes
    the nodes. *)
Definition LRU_keys_unique (c : LRUCache) : Prop := NoDup (map fst c).

(** The key of the node before the tail sentinel, the least recently used. *)
Definition LRU_oldest (c : LRUCache) : option string :=
  match rev c with
  | [] => None
  | (k, _) :: _ => Some k
  end.

(** The cache of [core/normal-distribution] after [normalInverse] has been
    called on each of [ps] in turn, starting with the cache empty. *)
Definition normalInverse_cache_after (Math_log : float -> float)
    (toFixed10 : float -> string) (ps : list float) : LRUCache :=
  fold_left (fun cache p => snd (normalInverse Math_log toFixed10 cache p)) ps [].

(** ** [core/effect-size] *)

(** The object [{level, label}] returned by [interpretCohenD]. *)
Module Interpretation.
Record t : Type := mk { level : string; label : string }.
End Interpretation.

(** The object [{d, dStr, level, label}] returned by [getEffectSizeInfo]. *)
Module CohenD.
Record t : Type := mk { d : float; dStr : string; level : string; label : string }.
End CohenD.

(** The object [{h, hStr, level, label}] returned by
    [getEffectSizeInfoProportion]. *)
Module CohenH.
Record t : Type := mk { h : float; hStr : string; level : string; label : string }.
End CohenH.

Section EffectSize.

Import Binary64.
Local Open Scope float_scope.

(** [Math.asin] is implementation-approximated and [toFixed(2)] is a
    formatting routine: both are taken as given. *)
Variable Math_asin : float -> float.
Variable toFixed2 : float -> string.

(** [!sigma] holds of a number that is a zero or NaN. *)
Definition calculateCohenD (meanDiff sigma : float) : float :=
  if (is_zero sigma || is_nan sigma) || (sigma <=? 0) then nan
  else meanDiff / sigma.

Definition interpretCohenD (d : float) : Interpretation.t :=
  let absD := Math_abs d in
  if is_nan absD then Interpretation.mk "undefined" "未定义"
  else if absD <? 0.2 then Interpretation.mk "negligible" "极小"
  else if absD <? 0.5 then Interpretation.mk "small" "小"
  else if absD <? 0.8 then Interpretation.mk "medium" "中"
  else Interpretation.mk "large" "大".

Definition getEffectSizeInfo (meanDiff sigma : float) : CohenD.t :=
  let d := calculateCohenD meanDiff sigma in
  let interpretation := interpretCohenD d in
  {| CohenD.d := d;
     CohenD.dStr := if is_nan d then "-"%string else toFixed2 d;
     CohenD.level := Interpretation.level interpretation;
     CohenD.label := Interpretation.label interpretation |}.

Definition calculateCohenH (p1 p2 : float) : float :=
  if (p1 <? 0) || (p1 >? 1) || (p2 <? 0) || (p2 >? 1) then nan
  else
    let phi1 := 2 * Math_asin (Math_sqrt p1) in
    let phi2 := 2 * Math_asin (Math_sqrt p2) in
    phi1 - phi2.

Definition interpretCohenH (h : float) : Interpretation.t := interpretCohenD h.

Definition getEffectSizeInfoProportion (p1 p2 : float) : CohenH.t :=
  let h := calculateCohenH p1 p2 in
  let interpretation := interpretCohenH h in
  {| CohenH.h := h;
     CohenH.hStr := if is_nan h then "-"%string else toFixed2 h;
     CohenH.level := Interpretation.level interpretation;
     CohenH.label := Interpretation.label interpretation |}.

End EffectSize.

(** The place of an interpretation level on the scale from negligible to
    large. *)
Definition level_rank (level : string) : nat :=
  if String.eqb level "negligible" then 0
  else if String.eqb level "small" then 1
  else if String.eqb level "medium" then 2
  else if String.eqb level "large" then 3
  else 4.

(** ** The shapes of a binary64 value *)

(** A zero or a finite nonzero number. *)
Definition SF_is_finite (x : spec_float) : bool :=
  match x with
  | S754_zero _ | S754_finite _ _ _ => true
  | _ => false
  end.

Definition SF_is_nan (x : spec_float) : bool :=
  match x with
  | S754_nan => true
  | _ => false
  end.

Definition SF_is_zero (x : spec_float) : bool :=
  match x with
  | S754_zero _ => true
  | _ => false
  end.

(** * Properties that hold in every arithmetic *)

(** Case analysis on the condition of the outermost conditional of the goal. *)
Ltac case_if :=
  match goal with
  | |- context [if ?c then _ else _] => destruct c eqn:?
  end.

(** The literals of the solvers, read through [float_lit], are the binary64
    values that the same decimal literals denote. *)
Lemma float_lit_literals :
  let flit := Binary64.float_lit in
  flit 0 = 0%float /\ flit 1 = 1%float /\ flit 2 = 2%float /\
  flit 0.5 = 0.5%float /\
  flit 0.001 = 0.001%float /\ flit 0.999 = 0.999%float /\
  flit 0.9999 = 0.9999%float /\
  flit 1e-8 = 1e-8%float /\ flit 1e-10 = 1e-10%float /\
  flit 1e-12 = 1e-12%float.
Proof. vm_compute. repeat split. Qed.

Section SolverFacts.

Context {num : Type} {JSN : JSNumber num}.
Local Open Scope js_scope.




Opaque calcZ.



Transparent calcZ.

End SolverFacts.

(** * Comparisons and clipping on binary64 *)

Lemma ltb_leb (a b : float) : (a <? b)%float = true -> (a <=? b)%float = true.
Proof.
  rewrite FloatAxioms.ltb_spec, FloatAxioms.leb_spec. unfold SFltb, SFleb.
  destruct (SFcompare _ _) as [[ | | ]|]; intros H; try discriminate H; reflexivity.
Qed.

Lemma SFcompare_antisym (x y : spec_float) :
  SFcompare y x = option_map CompOpp (SFcompare x y).
Proof.
  destruct x as [sx|sx| |sx mx ex], y as [sy|sy| |sy my ey]; simpl;
    try reflexivity;
    try (destruct sx; reflexivity); try (destruct sy; reflexivity);
    try (destruct sx, sy; reflexivity).
  destruct sx, sy; try reflexivity;
    rewrite (Z.compare_antisym ex ey);
    destruct (ex ?= ey)%Z; simpl; try reflexivity;
    rewrite (Pos.compare_cont_antisym mx my Eq); simpl;
    try rewrite CompOpp_involutive; reflexivity.
Qed.

(** Of two floats, neither NaN, the first is at most the second unless the
    second is below the first. *)
Lemma not_ltb_leb (a b : float) :
  is_nan a = false -> is_nan b = false ->
  (b <? a)%float = false -> (a <=? b)%float = true.
Proof.
  unfold is_nan.
  rewrite !FloatAxioms.eqb_spec, FloatAxioms.ltb_spec, FloatAxioms.leb_spec.
  unfold SFeqb, SFltb, SFleb.
  rewrite (SFcompare_antisym (Prim2SF a) (Prim2SF b)).
  destruct (Prim2SF a) as [sa|sa| |sa ma ea];
    destruct (Prim2SF b) as [sb|sb| |sb mb eb];
    try destruct sa; try destruct sb; simpl; intros Ha Hb;
    try discriminate; try (intros; reflexivity);
    try (intros H; discriminate H);
    destruct (ea ?= eb)%Z; simpl;
    try destruct (Pos.compare_cont Eq ma mb); simpl;
    intros; congruence.
Qed.

(** [Math.max(0.001, Math.min(0.999, x))] is NaN or lies in the closed
    interval from [0.001] to [0.999]. *)
Lemma clip_range (x : float) :
  in_unit_clip (Binary64.float_max 0.001 (Binary64.float_min 0.999 x)) = true.
Proof.
  unfold in_unit_clip, Binary64.float_min.
  change (is_nan 0.999) with false. change (get_sign 0.999) with false.
  cbn [orb].
  destruct (is_nan x) eqn:Nx; [reflexivity|].
  assert (Hm : exists m,
             Binary64.float_max 0.001
               (if (0.999 <? x)%float then 0.999%float
                else if (x <? 0.999)%float then x else x) =
             Binary64.float_max 0.001 m /\
             is_nan m = false /\ (m <=? 0.999)%float = true).
  { destruct (0.999 <? x)%float eqn:H1.
    - exists 0.999%float. repeat split.
    - destruct (x <? 0.999)%float eqn:H2.
      + exists x. repeat split; auto using ltb_leb.
      + exists x. repeat split; auto. apply not_ltb_leb; auto. }
  destruct Hm as (m & -> & Nm & Hle).
  unfold Binary64.float_max. change (is_nan 0.001) with false.
  rewrite Nm. cbn [orb].
  change (get_sign 0.001) with false.
  destruct (0.001 <? m)%float eqn:H3.
  - rewrite Nm, (ltb_leb _ _ H3), Hle. reflexivity.
  - destruct (m <? 0.001)%float; reflexivity.
Qed.

(** * Properties of the program on binary64 *)

Section OnBinary64.

Import Binary64.
Close Scope Q_scope.

(** The worked scenario of the specification: 80 of 100 against 85 of 100,
    margin [0.10], [alpha = 0.025], Miettinen-Nurminen.  The score statistic
    is positive, the lower confidence limit exceeds [-0.10], and
    non-inferiority is declared. *)
Example scenario_non_inferiority_MN :
  (fun (Math_exp Math_log : float -> float) (Math_pow : float -> float -> float)
       (toFixed10 : float -> string) =>
     let r := fst (calculateNIResult Math_exp Math_log Math_pow toFixed10 []
                     100 80 100 85 0.1 0.025 false "mn") in
     (Result.testStatistic r, Result.ci_lower r, Result.isNonInferior r)) =
  (fun _ _ _ _ =>
     (2.7173153311897424%float, (-0.056820262968540258)%float, true)).
Proof. vm_compute. reflexivity. Qed.






(** C3. For every input with [|delta0| < 1e-10] (in particular
    [delta0 = 0]) [calculateMNConstrainedMLE] returns the pooled rate
    [(x1 + x2) / (n1 + n2)] for both proportions, as a closed form: no
    interval, score or bisection enters the result.  The statement holds in
    every arithmetic, binary64 included. *)
Theorem C3_pooled_rate_when_delta0_negligible
    {num : Type} {JSN : JSNumber num} (x1 n1 x2 n2 delta0 : num) :
  (Math_abs delta0 <? '1e-10)%js = true ->
  calculateMNConstrainedMLE x1 n1 x2 n2 delta0 =
  {| p1_mle := ((x1 + x2) / (n1 + n2))%js;
     p2_mle := ((x1 + x2) / (n1 + n2))%js |}.
Proof.
  intros Hd. unfold calculateMNConstrainedMLE. cbv zeta. rewrite Hd. reflexivity.
Qed.

(** The scenario of the specification: 25 of 50 in each group, [delta0 = 0];
    both estimates are [0.5]. *)
Lemma C3_witness :
  (Math_abs 0%float <? '1e-10)%js = true /\
  calculateMNConstrainedMLE 25%float 50%float 25%float 50%float 0%float =
  {| p1_mle := 0.5%float; p2_mle := 0.5%float |}.
Proof.
  split.
  - vm_compute. reflexivity.
  - refine (eq_trans (C3_pooled_rate_when_delta0_negligible
                        25%float 50%float 25%float 50%float 0%float _) _);
      vm_compute; reflexivity.
Defined.



(** C7, as the code has it.  For an equivalence input with method ["mn"] or
    ["fm"] and a finite critical quantile [z_alpha = normalInverse(1 -
    alpha / 2)], [calculateEqResult] runs no score chain at [-margin] or
    [+margin].  With ["mn"] it runs the Miettinen-Nurminen chain once, at
    [delta0 = 0], and takes its interval and its standard error; with ["fm"]
    it runs no constrained estimate at all: it takes the unpooled standard
    error and the interval [diff -+ z_alpha * se], and returns the
    early-return object when that standard error is zero or not finite.
    With that one standard error the two one-sided statistics are
    [z1 = safeDivide(diff + margin, se)] and [z2 = safeDivide(diff - margin,
    se)], the p-value is [max(1 - Phi(z1), Phi(z2))], and success is declared
    exactly when [ci_lower > -margin] and [ci_upper < margin]. *)
Theorem C7_equivalence_uses_one_standard_error
    (Math_exp Math_log : float -> float) (Math_pow : float -> float -> float)
    (toFixed10 : float -> string) (cache : LRUCache)
    (n1 s1 n2 s2 delta alpha : float) (useContinuity : bool) (method : string) :
  method = "mn"%string \/ method = "fm"%string ->
  let n1' := safeNumber n1 1 in
  let s1' := safeNumber s1 0 in
  let n2' := safeNumber n2 1 in
  let s2' := safeNumber s2 0 in
  let margin := safeNumber delta 0 in
  let alpha' := safeNumber alpha 0 in
  let p1 := fst (rates n1' s1' n2' s2' useContinuity) in
  let p2 := snd (rates n1' s1' n2' s2' useContinuity) in
  let diff := (p2 - p1)%float in
  let z_alpha := fst (normalInverse Math_log toFixed10 cache (1 - alpha' / 2)%float) in
  is_finite z_alpha = true ->
  let r := fst (calculateEqResult Math_exp Math_log Math_pow toFixed10 cache
                  n1 s1 n2 s2 delta alpha useContinuity method) in
  let mn := calculateMNResult Math_exp s1' n1' s2' n2' 0 z_alpha in
  let se_unpooled :=
    PrimFloat.sqrt (safeDivide (p1 * (1 - p1)) n1' 0 +
                    safeDivide (p2 * (1 - p2)) n2' 0)%float in
  let se := if String.eqb method "mn" then Score.se mn else se_unpooled in
  let z1 := safeDivide (diff + margin) se 0 in
  let z2 := safeDivide (diff - margin) se 0 in
  (method = "fm"%string /\
   negb (is_finite se_unpooled) || (se_unpooled =? 0)%float = true /\
   r = early_return) \/
  (Result.ci_lower r =
     (if String.eqb method "mn" then Score.ci_lower mn
      else diff - z_alpha * se_unpooled)%float /\
   Result.ci_upper r =
     (if String.eqb method "mn" then Score.ci_upper mn
      else diff + z_alpha * se_unpooled)%float /\
   Result.label r = [z1; z2] /\
   Result.p_value r =
     float_max (1 - normalCDF Math_exp z1)%float (normalCDF Math_exp z2) /\
   Result.isNonInferior r =
     (Result.ci_lower r >? - margin)%float && (Result.ci_upper r <? margin)%float).
Proof.
  intros Hm. cbv zeta. unfold calculateEqResult. cbv zeta.
  destruct (rates _ _ _ _ _) as [p1 p2]. cbn [fst snd].
  destruct (normalInverse _ _ _ _) as [z_alpha cache']. cbn [fst snd].
  intros Hz. rewrite Hz. cbn [negb].
  destruct Hm as [-> | ->]; unfold calculateEqResult_method.
  - replace (String.eqb "mn" "fm") with false by reflexivity.
    replace (String.eqb "mn" "wilson") with false by reflexivity.
    replace (String.eqb "mn" "mn") with true by reflexivity.
    right. cbn [fst Result.ci_lower Result.ci_upper Result.label
                Result.p_value Result.isNonInferior].
    repeat split.
  - replace (String.eqb "fm" "fm") with true by reflexivity.
    replace (String.eqb "fm" "mn") with false by reflexivity.
    case_if.
    + left. repeat split. assumption.
    + right. cbn [fst Result.ci_lower Result.ci_upper Result.label
                  Result.p_value Result.isNonInferior].
      repeat split.
Qed.

(** 80 of 100 against 85 of 100, margin [0.1], [alpha = 0.05], method
    ["mn"]: the quantile is finite and the success flag is the conjunction
    of the two comparisons of the reported interval with the margin. *)
Lemma C7_witness :
  (fun (Math_log : float -> float) (toFixed10 : float -> string) =>
     is_finite (fst (normalInverse Math_log toFixed10 []
                       (1 - safeNumber 0.05 0 / 2)%float))) =
  (fun _ _ => true) /\
  forall (Math_exp Math_log : float -> float) (Math_pow : float -> float -> float)
         (toFixed10 : float -> string),
    let r := fst (calculateEqResult Math_exp Math_log Math_pow toFixed10 []
                    100 80 100 85 0.1 0.05 false "mn") in
    Result.isNonInferior r =
    (Result.ci_lower r >? - safeNumber 0.1 0)%float &&
    (Result.ci_upper r <? safeNumber 0.1 0)%float.
Proof.
  split.
  - vm_compute. reflexivity.
  - intros Math_exp Math_log Math_pow toFixed10.
    destruct (C7_equivalence_uses_one_standard_error
                Math_exp Math_log Math_pow toFixed10 []
                100 80 100 85 0.1 0.05 false "mn" (or_introl eq_refl))
      as [(Hfm & _) | (_ & _ & _ & _ & H)].
    + vm_compute. reflexivity.
    + discriminate Hfm.
    + exact H.
Defined.

(** C7 fails as stated, twice.  (1) 80 of 100 against 85 of 100, margin
    [0.1], [alpha = 0.05], method ["mn"]: the two one-sided statistics that
    [calculateEqResult] reports are not the statistics of the score chain
    run at [delta0 = -0.1] and at [delta0 = +0.1].  (2) No events in either
    group of 100, method ["fm"]: the object returned has both confidence
    limits [0], strictly inside [(-0.1, 0.1)], and the success flag
    [false]. *)
Lemma C7_counterexample :
  (fun (Math_exp Math_log : float -> float) (Math_pow : float -> float -> float)
       (toFixed10 : float -> string) =>
     let z_alpha := fst (normalInverse Math_log toFixed10 [] (1 - 0.05 / 2)%float) in
     let r := fst (calculateEqResult Math_exp Math_log Math_pow toFixed10 []
                     100 80 100 85 0.1 0.05 false "mn") in
     (Result.label r,
      Score.z_score (calculateMNResult Math_exp 80 100 85 100 (-0.1) z_alpha),
      Score.z_score (calculateMNResult Math_exp 80 100 85 100 0.1 z_alpha))) =
  (fun _ _ _ _ =>
     ([2.7844652544513364%float; (-0.92815508481711384)%float],
      2.7173153311897424%float, (-0.92482917301423639)%float)) /\
  (fun (Math_exp Math_log : float -> float) (Math_pow : float -> float -> float)
       (toFixed10 : float -> string) =>
     let r := fst (calculateEqResult Math_exp Math_log Math_pow toFixed10 []
                     100 0 100 0 0.1 0.05 false "fm") in
     (Result.ci_lower r, Result.ci_upper r,
      (Result.ci_lower r >? -0.1)%float && (Result.ci_upper r <? 0.1)%float,
      Result.isNonInferior r)) =
  (fun _ _ _ _ => (0%float, 0%float, true, false)).
Proof. vm_compute. split; reflexivity. Qed.

(** Whatever its input, binary64 [calculateFMRMLE] returns a [p2_rmle] that
    is NaN or lies in the closed interval from [0.001] to [0.999]: the second
    proportion is clipped on return. *)
Lemma calculateFMRMLE_p2_clipped (p1_obs p2_obs n1 n2 delta0 : float) :
  in_unit_clip (p2_rmle (calculateFMRMLE p1_obs p2_obs n1 n2 delta0)) = true.
Proof.
  unfold calculateFMRMLE. cbv zeta. cbn [p2_rmle].
  generalize (FMRMLE_loop p1_obs p2_obs n1 n2 delta0
                ((n1 * p1_obs + n2 * p2_obs) / (n1 + n2))%js 20
                (Math_max '0.001
                   (Math_min '0.999
                      ((n1 * p1_obs + n2 * p2_obs) / (n1 + n2) - delta0 / '2)))%js)
    as p1_est.
  intros p1_est. apply (clip_range (p1_est + delta0)%float).
Qed.

(** C8: the code at two failing inputs.  At [delta0 = -1] with both observed
    rates [0.5] the first iteration takes the fallback, whose upper clip is
    [0.999 - delta0], not [0.999 - max(0, delta0)] as in the loop, and
    [p1_rmle] is [1]; 8 of 10 against 0 of 1 at [delta0 = -0.9] reaches the
    same fallback after Newton steps and [p1_rmle] is about [1.18]. *)
Theorem C8_p1_rmle_outside_the_interval :
  calculateFMRMLE 0.5%float 0.5%float 10%float 10%float (-1)%float =
    {| p1_rmle := 1%float; p2_rmle := 0.001%float |} /\
  (let r := calculateFMRMLE (8 / 10)%float (0 / 1)%float 10%float 1%float (-0.9)%float in
   (p1_rmle r <=? 0.999)%float = false /\ (1 <? p1_rmle r)%float = true).
Proof. vm_compute. repeat split. Qed.





End OnBinary64.

(** * Properties of the solvers in exact arithmetic *)

Section InExactArithmetic.

Import Exact.
Local Open Scope R_scope.














(** *** The score is decreasing *)








(** *** The searches of the interval inverter stay inside their bracket *)









(** *** The bisection of the Miettinen-Nurminen solver *)









(** *** The Newton-Raphson solver for a nonnegative hypothesised difference *)




End InExactArithmetic.

(** * The cache *)

Section OnTheCache.

Close Scope Q_scope.

Lemma cache_lookup_none_notin (k : string) (c : LRUCache) :
  cache_lookup k c = None <-> ~ In k (map fst c).
Proof.
  induction c as [|[k0 v0] c IH]; cbn [cache_lookup map fst In].
  - tauto.
  - destruct (String.eqb_spec k0 k) as [->|Hne].
    + split; [discriminate | intros H; exfalso; apply H; left; reflexivity].
    + rewrite IH. tauto.
Qed.

Lemma cache_lookup_remove_other (k k' : string) (c : LRUCache) :
  k' <> k -> cache_lookup k' (cache_remove k c) = cache_lookup k' c.
Proof.
  intros Hne. induction c as [|[k0 v0] c IH]; cbn [cache_lookup cache_remove].
  - reflexivity.
  - destruct (String.eqb_spec k0 k) as [->|H0].
    + destruct (String.eqb_spec k k'); [congruence | reflexivity].
    + cbn [cache_lookup]. rewrite IH. reflexivity.
Qed.

Lemma cache_remove_keys_incl (k : string) (c : LRUCache) :
  incl (map fst (cache_remove k c)) (map fst c).
Proof.
  induction c as [|[k0 v0] c IH]; cbn [cache_remove map fst].
  - apply incl_refl.
  - destruct (String.eqb k0 k).
    + apply incl_tl, incl_refl.
    + cbn [map fst]. intros x [<-|Hx]; [left; reflexivity | right; apply IH, Hx].
Qed.

Lemma cache_remove_unique (k : string) (c : LRUCache) :
  LRU_keys_unique c -> LRU_keys_unique (cache_remove k c).
Proof.
  unfold LRU_keys_unique.
  induction c as [|[k0 v0] c IH]; cbn [cache_remove map fst]; intros H.
  - exact H.
  - inversion H as [|? ? Hn Hd]; subst.
    destruct (String.eqb k0 k); [exact Hd|].
    cbn [map fst]. constructor; [|apply IH, Hd].
    intros Hin. apply Hn. apply (cache_remove_keys_incl k c), Hin.
Qed.

(** With unique keys, removing a key's node leaves no node for the key. *)
Lemma cache_remove_gone (k : string) (c : LRUCache) :
  LRU_keys_unique c -> cache_lookup k (cache_remove k c) = None.
Proof.
  unfold LRU_keys_unique.
  induction c as [|[k0 v0] c IH]; cbn [cache_remove map fst]; intros H.
  - reflexivity.
  - inversion H as [|? ? Hn Hd]; subst.
    destruct (String.eqb_spec k0 k) as [->|H0].
    + apply cache_lookup_none_notin, Hn.
    + cbn [cache_lookup]. destruct (String.eqb_spec k0 k); [congruence|].
      apply IH, Hd.
Qed.

Lemma cache_remove_length (k : string) (c : LRUCache) :
  List.length (cache_remove k c) =
  match cache_lookup k c with
  | Some _ => pred (List.length c)
  | None => List.length c
  end.
Proof.
  induction c as [|[k0 v0] c IH]; cbn [cache_remove cache_lookup List.length].
  - reflexivity.
  - destruct (String.eqb k0 k); [reflexivity|].
    cbn [List.length]. rewrite IH.
    destruct (cache_lookup k c) eqn:E; [|reflexivity].
    destruct c; [discriminate E | reflexivity].
Qed.

Lemma removelast_keys (c : LRUCache) :
  map fst (removelast c) = removelast (map fst c).
Proof.
  induction c as [|[k0 v0] [|e c] IH]; try reflexivity.
  change (removelast ((k0, v0) :: e :: c)) with ((k0, v0) :: removelast (e :: c)).
  cbn [map fst]. rewrite IH. reflexivity.
Qed.

Lemma removelast_incl {A : Type} (l : list A) : incl (removelast l) l.
Proof.
  induction l as [|a [|b l] IH].
  - apply incl_refl.
  - intros x [].
  - change (removelast (a :: b :: l)) with (a :: removelast (b :: l)).
    intros x [<-|Hx]; [left; reflexivity | right; apply IH, Hx].
Qed.

Lemma removelast_NoDup {A : Type} (l : list A) : NoDup l -> NoDup (removelast l).
Proof.
  induction l as [|a [|b l] IH]; intros H.
  - exact H.
  - constructor.
  - change (removelast (a :: b :: l)) with (a :: removelast (b :: l)).
    inversion H as [|? ? Hn Hd]; subst.
    constructor; [|apply IH, Hd].
    intros Hin. apply Hn, (removelast_incl (b :: l)), Hin.
Qed.

Lemma removelast_length {A : Type} (l : list A) :
  List.length (removelast l) = pred (List.length l).
Proof.
  induction l as [|a [|b l] IH]; try reflexivity.
  change (removelast (a :: b :: l)) with (a :: removelast (b :: l)).
  cbn [List.length] in *. rewrite IH. reflexivity.
Qed.

(** Looking a key up after the tail node has been dropped. *)
Lemma cache_lookup_removelast (k : string) (c : LRUCache) :
  LRU_keys_unique c ->
  cache_lookup k (removelast c) =
  match LRU_oldest c with
  | Some k0 => if String.eqb k k0 then None else cache_lookup k c
  | None => None
  end.
Proof.
  unfold LRU_keys_unique, LRU_oldest.
  induction c as [|[k1 v1] [|e c] IH]; intros H.
  - reflexivity.
  - cbn. destruct (String.eqb_spec k k1) as [->|Hne]; [reflexivity|].
    destruct (String.eqb_spec k1 k); [congruence | reflexivity].
  - change (removelast ((k1, v1) :: e :: c)) with ((k1, v1) :: removelast (e :: c)).
    inversion H as [|? ? Hn Hd]; subst.
    specialize (IH Hd).
    change (rev ((k1, v1) :: e :: c)) with (rev (e :: c) ++ [(k1, v1)]).
    destruct (rev (e :: c)) as [|[k0 v0] r] eqn:Er.
    { apply (f_equal (@rev _)) in Er. rewrite rev_involutive in Er. discriminate Er. }
    cbn [app]. cbn [cache_lookup].
    assert (Hk0 : In k0 (map fst (e :: c))).
    { apply in_map_iff. exists (k0, v0). split; [reflexivity|].
      apply in_rev. rewrite Er. left. reflexivity. }
    destruct (String.eqb_spec k1 k) as [->|Hne].
    + destruct (String.eqb_spec k k0) as [->|]; [contradiction | reflexivity].
    + exact IH.
Qed.

Lemma cache_lookup_removelast_none (k : string) (c : LRUCache) :
  cache_lookup k c = None -> cache_lookup k (removelast c) = None.
Proof.
  rewrite !cache_lookup_none_notin, removelast_keys.
  intros H Hin. apply H, (removelast_incl _ _ Hin).
Qed.

(** With room for at least one entry, [put] leaves its entry at the head,
    where [get] finds it without moving anything. *)
Lemma LRU_get_put (capacity : nat) (key : string) (value : float) (c : LRUCache) :
  1 <= capacity ->
  LRU_get key (LRU_put capacity key value c) =
  (Some value, LRU_put capacity key value c).
Proof.
  intros Hcap.
  assert (H : exists rest, LRU_put capacity key value c = (key, value) :: rest).
  { unfold LRU_put. destruct (cache_lookup key c).
    - eexists; reflexivity.
    - cbv zeta. destruct (Nat.ltb_spec capacity (List.length ((key, value) :: c))).
      + destruct c as [|e c]; [cbn [List.length] in *; lia|].
        change (removelast ((key, value) :: e :: c))
          with ((key, value) :: removelast (e :: c)).
        eexists; reflexivity.
      + eexists; reflexivity. }
  destruct H as [rest ->].
  unfold LRU_get. cbn [cache_lookup cache_remove].
  rewrite String.eqb_refl. reflexivity.
Qed.

(** Every call keeps the keys unique and the size within the capacity. *)
Lemma LRU_do_invariant (capacity : nat) (c : LRUCache) (call : LRU_call) :
  LRU_keys_unique c /\ LRU_size c <= capacity ->
  LRU_keys_unique (LRU_do capacity c call) /\
  LRU_size (LRU_do capacity c call) <= capacity.
Proof.
  unfold LRU_size. intros [Hu Hs].
  destruct call as [key|key value|key|]; cbn [LRU_do].
  - unfold LRU_get. destruct (cache_lookup key c) eqn:E; cbn [snd].
    + split.
      * unfold LRU_keys_unique. cbn [map fst]. constructor.
        -- apply cache_lookup_none_notin, cache_remove_gone, Hu.
        -- apply cache_remove_unique, Hu.
      * cbn [List.length]. rewrite cache_remove_length, E.
        destruct c; [discriminate E | cbn [List.length pred] in *; lia].
    + split; assumption.
  - unfold LRU_put. destruct (cache_lookup key c) eqn:E.
    + split.
      * unfold LRU_keys_unique. cbn [map fst]. constructor.
        -- apply cache_lookup_none_notin, cache_remove_gone, Hu.
        -- apply cache_remove_unique, Hu.
      * cbn [List.length]. rewrite cache_remove_length, E.
        destruct c; [discriminate E | cbn [List.length pred] in *; lia].
    + cbv zeta.
      assert (Hu' : LRU_keys_unique ((key, value) :: c)).
      { unfold LRU_keys_unique. cbn [map fst]. constructor; [|exact Hu].
        apply cache_lookup_none_notin, E. }
      destruct (Nat.ltb_spec capacity (List.length ((key, value) :: c))).
      * split.
        -- unfold LRU_keys_unique. rewrite removelast_keys.
           apply removelast_NoDup, Hu'.
        -- rewrite removelast_length. cbn [List.length pred]. exact Hs.
      * split; assumption.
  - unfold LRU_delete. destruct (cache_lookup key c) eqn:E; cbn [snd].
    + split; [apply cache_remove_unique, Hu|].
      rewrite cache_remove_length, E. lia.
    + split; assumption.
  - unfold LRU_clear. split; [constructor | cbn; lia].
Qed.



(** X6.  Whatever sequence of [get], [put], [delete] and [clear] calls is
    made on a new cache, it never holds more entries than its capacity, and
    never two entries under one key. *)
Theorem LRU_never_exceeds_capacity (capacity : nat) (calls : list LRU_call) :
  LRU_size (LRU_after capacity calls) <= capacity /\
  LRU_keys_unique (LRU_after capacity calls).
Proof.
  unfold LRU_after.
  assert (H : forall c, LRU_keys_unique c /\ LRU_size c <= capacity ->
            LRU_keys_unique (fold_left (LRU_do capacity) calls c) /\
            LRU_size (fold_left (LRU_do capacity) calls c) <= capacity).
  { induction calls as [|call calls IH]; intros c Hc; cbn [fold_left].
    - exact Hc.
    - apply IH, LRU_do_invariant, Hc. }
  destruct (H []) as [Hu Hs].
  - split; [constructor | cbn; lia].
  - split; assumption.
Qed.

(** X7.  [put] of a new key into a full cache (unique keys, capacity at
    least 1) evicts the least recently used entry and nothing else: after it
    the new key has the new value, the key that was at the tail has none,
    and every other key has the value it had. *)
Theorem LRU_put_evicts_the_oldest (capacity : nat) (key : string) (value : float)
    (c : LRUCache) (k : string) :
  LRU_keys_unique c -> 1 <= capacity -> LRU_size c = capacity ->
  cache_lookup key c = None ->
  cache_lookup k (LRU_put capacity key value c) =
  if String.eqb k key then Some value
  else match LRU_oldest c with
       | Some k0 => if String.eqb k k0 then None else cache_lookup k c
       | None => None
       end.
Proof.
  unfold LRU_size. intros Hu Hcap Hfull Hnew.
  unfold LRU_put. rewrite Hnew. cbv zeta.
  destruct (Nat.ltb_spec capacity (List.length ((key, value) :: c)));
    [|cbn [List.length] in *; lia].
  destruct c as [|e c]; [cbn [List.length] in *; lia|].
  change (removelast ((key, value) :: e :: c))
    with ((key, value) :: removelast (e :: c)).
  cbn [cache_lookup]. rewrite (String.eqb_sym k key).
  destruct (String.eqb key k); [reflexivity|].
  apply cache_lookup_removelast, Hu.
Qed.

(** A full cache of capacity 2 holding ["b"] (recent) and ["a"] (oldest):
    putting ["c"] evicts ["a"] and keeps ["b"]. *)
Lemma LRU_put_evicts_the_oldest_witness :
  let c := [("b"%string, 2%float); ("a"%string, 1%float)] in
  (LRU_keys_unique c /\ 1 <= 2 /\ LRU_size c = 2 /\ cache_lookup "c" c = None) /\
  cache_lookup "a" (LRU_put 2 "c" 3%float c) = None /\
  cache_lookup "b" (LRU_put 2 "c" 3%float c) = Some 2%float.
Proof.
  cbv zeta.
  assert (Hu : LRU_keys_unique [("b"%string, 2%float); ("a"%string, 1%float)]).
  { unfold LRU_keys_unique. cbn [map fst].
    constructor; [intros [H|[]]; discriminate H|].
    constructor; [intros []|constructor]. }
  split; [repeat split; [exact Hu | lia]|].
  split.
  - exact (LRU_put_evicts_the_oldest 2 "c" 3%float
             [("b"%string, 2%float); ("a"%string, 1%float)] "a"
             Hu (le_S 1 1 (le_n 1)) eq_refl eq_refl).
  - reflexivity.
Defined.

(** X8.  [get] changes no value: after [get(key)], hit or miss, every key
    [k] has the value, or the absence of one, that it had before. *)
Theorem LRU_get_keeps_every_value (key k : string) (c : LRUCache) :
  cache_lookup k (snd (LRU_get key c)) = cache_lookup k c.
Proof.
  unfold LRU_get. destruct (cache_lookup key c) eqn:E; cbn [snd]; [|reflexivity].
  cbn [cache_lookup]. destruct (String.eqb_spec key k) as [<-|Hne].
  - symmetry. exact E.
  - apply cache_lookup_remove_other. congruence.
Qed.

(** X9.  [put(key, value)] that overwrites an entry or finds the cache not
    yet full changes the value of no other key. *)
Theorem LRU_put_keeps_other_values (capacity : nat) (key : string) (value : float)
    (c : LRUCache) (k : string) :
  k <> key ->
  LRU_size c < capacity \/ LRU_has key c = true ->
  cache_lookup k (LRU_put capacity key value c) = cache_lookup k c.
Proof.
  unfold LRU_size, LRU_has. intros Hne Hroom.
  unfold LRU_put. destruct (cache_lookup key c) eqn:E.
  - cbn [cache_lookup]. destruct (String.eqb_spec key k); [congruence|].
    apply cache_lookup_remove_other, Hne.
  - destruct Hroom as [Hroom|Hroom]; [|discriminate Hroom].
    cbv zeta.
    destruct (Nat.ltb_spec capacity (List.length ((key, value) :: c)));
      [cbn [List.length] in *; lia|].
    cbn [cache_lookup]. destruct (String.eqb_spec key k); [congruence | reflexivity].
Qed.

Lemma LRU_put_keeps_other_values_witness :
  let c := [("a"%string, 1%float)] in
  ("a"%string <> "b"%string /\ (LRU_size c < 2 \/ LRU_has "b" c = true)) /\
  cache_lookup "a" (LRU_put 2 "b" 2%float c) = cache_lookup "a" c.
Proof.
  cbv zeta.
  assert (Hne : "a"%string <> "b"%string) by discriminate.
  assert (Hroom : LRU_size [("a"%string, 1%float)] < 2 \/
                  LRU_has "b" [("a"%string, 1%float)] = true)
    by (left; unfold LRU_size; cbn [List.length]; lia).
  split; [split; assumption|].
  exact (LRU_put_keeps_other_values 2 "b" 2%float [("a"%string, 1%float)] "a"
           Hne Hroom).
Defined.

(** X10.  In a cache of capacity at least 2, the key that [get] has just
    looked up is not the one that the next [put] of another key evicts: its
    value, or the absence of one, is what it was. *)
Theorem LRU_put_spares_the_key_just_read (capacity : nat) (key : string)
    (c : LRUCache) (key2 : string) (value2 : float) :
  2 <= capacity -> key2 <> key ->
  cache_lookup key (LRU_put capacity key2 value2 (snd (LRU_get key c))) =
  cache_lookup key c.
Proof.
  intros Hcap Hne. unfold LRU_get.
  destruct (cache_lookup key c) as [v|] eqn:E; cbn [snd].
  - unfold LRU_put.
    destruct (cache_lookup key2 ((key, v) :: cache_remove key c)).
    + cbn [cache_lookup cache_remove].
      destruct (String.eqb_spec key2 key); [congruence|].
      destruct (String.eqb_spec key key2); [congruence|].
      cbn [cache_lookup]. rewrite String.eqb_refl. reflexivity.
    + cbv zeta.
      destruct (Nat.ltb_spec capacity
                  (List.length ((key2, value2) :: (key, v) :: cache_remove key c))).
      * destruct (cache_remove key c) as [|e r];
          [cbn [List.length] in *; lia|].
        change (removelast ((key2, value2) :: (key, v) :: e :: r))
          with ((key2, value2) :: (key, v) :: removelast (e :: r)).
        cbn [cache_lookup].
        destruct (String.eqb_spec key2 key); [congruence|].
        rewrite String.eqb_refl. reflexivity.
      * cbn [cache_lookup].
        destruct (String.eqb_spec key2 key); [congruence|].
        rewrite String.eqb_refl. reflexivity.
  - unfold LRU_put. destruct (cache_lookup key2 c).
    + cbn [cache_lookup]. destruct (String.eqb_spec key2 key); [congruence|].
      rewrite cache_lookup_remove_other by congruence. exact E.
    + cbv zeta.
      assert (E' : cache_lookup key ((key2, value2) :: c) = None).
      { cbn [cache_lookup]. destruct (String.eqb_spec key2 key); [congruence | exact E]. }
      destruct (Nat.ltb capacity (List.length ((key2, value2) :: c)));
        [apply cache_lookup_removelast_none|]; exact E'.
Qed.

(** A full cache of capacity 2 whose oldest key ["a"] is read before ["c"]
    is put: ["a"] survives. *)
Lemma LRU_put_spares_the_key_just_read_witness :
  let c := [("b"%string, 2%float); ("a"%string, 1%float)] in
  (2 <= 2 /\ "c"%string <> "a"%string) /\
  cache_lookup "a" (LRU_put 2 "c" 3%float (snd (LRU_get "a" c))) = Some 1%float.
Proof.
  cbv zeta.
  assert (Hne : "c"%string <> "a"%string) by discriminate.
  split; [split; [lia | exact Hne]|].
  exact (LRU_put_spares_the_key_just_read 2 "a"
           [("b"%string, 2%float); ("a"%string, 1%float)] "c" 3%float
           (le_n 2) Hne).
Defined.

(** X11.  On a cache with unique keys, [delete(key)] answers whether the
    key was present, leaves no value under it, and changes the value of no
    other key. *)
Theorem LRU_delete_removes_the_key_only (key k : string) (c : LRUCache) :
  LRU_keys_unique c ->
  fst (LRU_delete key c) = LRU_has key c /\
  cache_lookup k (snd (LRU_delete key c)) =
  if String.eqb k key then None else cache_lookup k c.
Proof.
  intros Hu. unfold LRU_delete, LRU_has.
  destruct (cache_lookup key c) eqn:E; cbn [fst snd]; (split; [reflexivity|]).
  - destruct (String.eqb_spec k key) as [->|Hne].
    + apply cache_remove_gone, Hu.
    + apply cache_lookup_remove_other, Hne.
  - destruct (String.eqb_spec k key) as [->|Hne]; [exact E | reflexivity].
Qed.

Lemma LRU_delete_removes_the_key_only_witness :
  let c := [("b"%string, 2%float); ("a"%string, 1%float)] in
  LRU_keys_unique c /\
  fst (LRU_delete "b" c) = true /\
  cache_lookup "b" (snd (LRU_delete "b" c)) = None.
Proof.
  cbv zeta.
  assert (Hu : LRU_keys_unique [("b"%string, 2%float); ("a"%string, 1%float)]).
  { unfold LRU_keys_unique. cbn [map fst].
    constructor; [intros [H|[]]; discriminate H|].
    constructor; [intros []|constructor]. }
  split; [exact Hu|].
  exact (LRU_delete_removes_the_key_only "b" "b"
           [("b"%string, 2%float); ("a"%string, 1%float)] Hu).
Defined.

End OnTheCache.

(** * Order and rounding on binary64 *)

Section Binary64Facts.

Close Scope Q_scope.
Local Open Scope float_scope.

Lemma SFcompare_refl (x : spec_float) :
  SFcompare x x = if SF_is_nan x then None else Some Eq.
Proof.
  destruct x as [s|s| |s m e]; cbn.
  - reflexivity.
  - destruct s; reflexivity.
  - reflexivity.
  - destruct s; rewrite Z.compare_refl, Pos.compare_cont_refl; reflexivity.
Qed.

Lemma is_nan_spec (x : float) : is_nan x = SF_is_nan (Prim2SF x).
Proof.
  unfold is_nan. rewrite FloatAxioms.eqb_spec. unfold SFeqb.
  rewrite SFcompare_refl. destruct (Prim2SF x); reflexivity.
Qed.

Lemma is_finite_spec (x : float) : is_finite x = SF_is_finite (Prim2SF x).
Proof.
  unfold is_finite, is_infinity. rewrite is_nan_spec, FloatAxioms.eqb_spec, abs_spec.
  change (Prim2SF infinity) with (S754_infinity false).
  destruct (Prim2SF x) as [s|s| |s m e]; reflexivity.
Qed.

Lemma is_zero_spec (x : float) : is_zero x = SF_is_zero (Prim2SF x).
Proof.
  unfold is_zero. rewrite FloatAxioms.eqb_spec.
  change (Prim2SF zero) with (S754_zero false).
  destruct (Prim2SF x) as [s|s| |s m e]; try destruct s; reflexivity.
Qed.

Lemma is_finite_not_nan (x : float) : is_finite x = true -> is_nan x = false.
Proof.
  rewrite is_finite_spec, is_nan_spec. destruct (Prim2SF x); intros H; try reflexivity.
  discriminate H.
Qed.

(** *** Rounding a nonnegative mantissa never yields NaN *)

Section RoundingShape.

Variables prec emax : Z.

Lemma shr_1_nonneg (mrs : shr_record) :
  (0 <= shr_m mrs)%Z -> (0 <= shr_m (shr_1 mrs))%Z.
Proof.
  destruct mrs as [m r s]. cbn [shr_m]. intros H.
  destruct m as [|p|p]; [| |lia]; cbn [shr_1].
  - cbn. lia.
  - destruct p; cbn; lia.
Qed.

Lemma iter_pos_nonneg (p : positive) : forall mrs : shr_record,
  (0 <= shr_m mrs)%Z -> (0 <= shr_m (iter_pos shr_1 p mrs))%Z.
Proof.
  induction p as [p IH|p IH|]; intros mrs H; cbn [iter_pos].
  - apply IH, IH, shr_1_nonneg, H.
  - apply IH, IH, H.
  - apply shr_1_nonneg, H.
Qed.

Lemma shr_fexp_nonneg (m e : Z) (l : location) :
  (0 <= m)%Z -> (0 <= shr_m (fst (shr_fexp prec emax m e l)))%Z.
Proof.
  intros H. unfold shr_fexp, shr.
  assert (H0 : (0 <= shr_m (shr_record_of_loc m l))%Z)
    by (destruct l as [|[]]; exact H).
  destruct (fexp prec emax (Zdigits2 m + e) - e)%Z; cbn [fst]; try exact H0.
  apply iter_pos_nonneg, H0.
Qed.

Lemma round_nearest_even_nonneg (m : Z) (l : location) :
  (0 <= m)%Z -> (0 <= round_nearest_even m l)%Z.
Proof.
  intros H. destruct l as [|[]]; cbn [round_nearest_even]; try lia.
  destruct (Z.even m); lia.
Qed.

Lemma binary_round_aux_not_nan (sx : bool) (mx ex : Z) (lx : location) :
  (0 <= mx)%Z -> SF_is_nan (binary_round_aux prec emax sx mx ex lx) = false.
Proof.
  intros H. unfold binary_round_aux.
  pose proof (shr_fexp_nonneg mx ex lx H) as H1.
  destruct (shr_fexp prec emax mx ex lx) as [mrs' e']. cbn [fst] in H1.
  pose proof (shr_fexp_nonneg
                (round_nearest_even (shr_m mrs') (loc_of_shr_record mrs'))
                e' loc_Exact (round_nearest_even_nonneg _ _ H1)) as H2.
  destruct (shr_fexp prec emax _ e' loc_Exact) as [mrs'' e'']. cbn [fst] in H2.
  destruct (shr_m mrs'') as [|p|p]; [reflexivity| |lia].
  destruct (e'' <=? emax - prec)%Z; reflexivity.
Qed.

Lemma binary_round_not_nan (sx : bool) (mx : positive) (ex : Z) :
  SF_is_nan (binary_round prec emax sx mx ex) = false.
Proof.
  unfold binary_round. destruct (shl_align _ _ _) as [mz ez].
  apply binary_round_aux_not_nan. lia.
Qed.

Lemma binary_normalize_not_nan (m e : Z) (szero : bool) :
  SF_is_nan (binary_normalize prec emax m e szero) = false.
Proof.
  destruct m; cbn [binary_normalize]; [reflexivity| |]; apply binary_round_not_nan.
Qed.

(** The sign given to a rounding shows in the sign of its result only. *)
Lemma binary_round_abs (sx sy : bool) (mx : positive) (ex : Z) :
  SFabs (binary_round prec emax sx mx ex) = SFabs (binary_round prec emax sy mx ex).
Proof.
  unfold binary_round. destruct (shl_align _ _ _) as [mz ez].
  unfold binary_round_aux.
  destruct (shr_fexp prec emax (Z.pos mz) ez loc_Exact) as [mrs' e'].
  destruct (shr_fexp prec emax _ e' loc_Exact) as [mrs'' e''].
  destruct (shr_m mrs''); try reflexivity.
  destruct (e'' <=? emax - prec)%Z; reflexivity.
Qed.

Lemma binary_normalize_abs_opp (m e : Z) :
  SFabs (binary_normalize prec emax (- m) e false) =
  SFabs (binary_normalize prec emax m e false).
Proof.
  destruct m; cbn [Z.opp binary_normalize]; [reflexivity| |]; apply binary_round_abs.
Qed.

Lemma SFsub_finite_not_nan (x y : spec_float) :
  SF_is_finite x = true -> SF_is_finite y = true ->
  SF_is_nan (SFsub prec emax x y) = false.
Proof.
  destruct x as [sx|sx| |sx mx ex], y as [sy|sy| |sy my ey];
    intros Hx Hy; try discriminate Hx; try discriminate Hy; cbn [SFsub].
  - destruct sx, sy; reflexivity.
  - reflexivity.
  - reflexivity.
  - apply binary_normalize_not_nan.
Qed.

Lemma SFadd_finite_not_nan (x y : spec_float) :
  SF_is_finite x = true -> SF_is_finite y = true ->
  SF_is_nan (SFadd prec emax x y) = false.
Proof.
  destruct x as [sx|sx| |sx mx ex], y as [sy|sy| |sy my ey];
    intros Hx Hy; try discriminate Hx; try discriminate Hy; cbn [SFadd].
  - destruct sx, sy; reflexivity.
  - reflexivity.
  - reflexivity.
  - apply binary_normalize_not_nan.
Qed.

Lemma SFsub_abs_sym (x y : spec_float) :
  SFabs (SFsub prec emax x y) = SFabs (SFsub prec emax y x).
Proof.
  destruct x as [sx|sx| |sx mx ex], y as [sy|sy| |sy my ey]; cbn [SFsub];
    try reflexivity;
    try (destruct sx, sy; reflexivity).
  cbv zeta. rewrite (Z.min_comm ey ex).
  rewrite <- binary_normalize_abs_opp. f_equal. f_equal. lia.
Qed.

Lemma SFsub_diag (x : spec_float) :
  SF_is_finite x = true -> SFabs (SFsub prec emax x x) = S754_zero false.
Proof.
  destruct x as [sx|sx| |sx mx ex]; intros Hx; try discriminate Hx; cbn [SFsub].
  - destruct sx; reflexivity.
  - cbv zeta. rewrite Z.sub_diag. reflexivity.
Qed.

End RoundingShape.

(** The difference and the sum of two finite numbers may overflow to an
    infinity but are never NaN. *)
Lemma sub_finite_not_nan (a b : float) :
  is_finite a = true -> is_finite b = true -> is_nan (a - b) = false.
Proof.
  rewrite !is_finite_spec, is_nan_spec, sub_spec. apply SFsub_finite_not_nan.
Qed.

Lemma add_finite_not_nan (a b : float) :
  is_finite a = true -> is_finite b = true -> is_nan (a + b) = false.
Proof.
  rewrite !is_finite_spec, is_nan_spec, add_spec. apply SFadd_finite_not_nan.
Qed.

Lemma abs_sub_sym (a b : float) : PrimFloat.abs (a - b) = PrimFloat.abs (b - a).
Proof.
  apply Prim2SF_inj. rewrite !abs_spec, !sub_spec. apply SFsub_abs_sym.
Qed.

Lemma abs_sub_diag (a : float) : is_finite a = true -> PrimFloat.abs (a - a) = 0.
Proof.
  intros H. apply Prim2SF_inj. rewrite abs_spec, sub_spec.
  rewrite is_finite_spec in H. exact (SFsub_diag _ _ _ H).
Qed.

Lemma abs_opp (x : float) : PrimFloat.abs (- x) = PrimFloat.abs x.
Proof.
  apply Prim2SF_inj. rewrite !abs_spec, opp_spec.
  destruct (Prim2SF x); reflexivity.
Qed.

(** *** The order *)

Lemma ltb_not_leb (a b : float) : (a <? b) = true -> (b <=? a) = false.
Proof.
  rewrite FloatAxioms.ltb_spec, FloatAxioms.leb_spec. unfold SFltb, SFleb.
  rewrite (SFcompare_antisym (Prim2SF a) (Prim2SF b)).
  destruct (SFcompare _ _) as [[ | | ]|]; intros H; try discriminate H; reflexivity.
Qed.

Lemma leb_negb_ltb (a b : float) :
  is_nan a = false -> is_nan b = false -> (a <=? b) = negb (b <? a).
Proof.
  intros Ha Hb. destruct (b <? a) eqn:E.
  - apply ltb_not_leb, E.
  - apply not_ltb_leb; assumption.
Qed.

Lemma leb_refl (a : float) : is_nan a = false -> (a <=? a) = true.
Proof.
  rewrite is_nan_spec, FloatAxioms.leb_spec. unfold SFleb.
  rewrite SFcompare_refl. intros ->. reflexivity.
Qed.

Lemma nan_leb_l (a b : float) : is_nan a = true -> (a <=? b) = false.
Proof.
  rewrite is_nan_spec, FloatAxioms.leb_spec. unfold SFleb.
  destruct (Prim2SF a); intros H; try discriminate H. reflexivity.
Qed.

Lemma nan_leb_r (a b : float) : is_nan b = true -> (a <=? b) = false.
Proof.
  rewrite is_nan_spec, FloatAxioms.leb_spec. unfold SFleb.
  destruct (Prim2SF b); intros H; try discriminate H.
  destruct (Prim2SF a); reflexivity.
Qed.

Lemma SFleb_ltb_trans (x y z : spec_float) :
  SFleb x y = true -> SFltb y z = true -> SFltb x z = true.
Proof.
  unfold SFleb, SFltb.
  destruct x as [sx|sx| |sx mx ex], y as [sy|sy| |sy my ey],
           z as [sz|sz| |sz mz ez]; cbn [SFcompare];
    try (intros H; discriminate H); try (intros _ H; discriminate H);
    try destruct sx; try destruct sy; try destruct sz;
    try (intros H; discriminate H); try (intros _ H; discriminate H);
    try (intros; reflexivity).
  - destruct (Z.compare_spec ex ey), (Z.compare_spec ey ez), (Z.compare_spec ex ez);
      try (intros H; discriminate H); try (intros _ H; discriminate H);
      try (intros; reflexivity); try lia; subst;
      change (Pos.compare_cont Eq) with Pos.compare;
      destruct (Pos.compare_spec mx my), (Pos.compare_spec my mz),
               (Pos.compare_spec mx mz);
      cbn [CompOpp];
      try (intros H; discriminate H); try (intros _ H; discriminate H);
      try (intros; reflexivity); lia.
  - destruct (Z.compare_spec ex ey), (Z.compare_spec ey ez), (Z.compare_spec ex ez);
      try (intros H; discriminate H); try (intros _ H; discriminate H);
      try (intros; reflexivity); try lia; subst;
      change (Pos.compare_cont Eq) with Pos.compare;
      destruct (Pos.compare_spec mx my), (Pos.compare_spec my mz),
               (Pos.compare_spec mx mz);
      cbn [CompOpp];
      try (intros H; discriminate H); try (intros _ H; discriminate H);
      try (intros; reflexivity); lia.
Qed.

Lemma leb_ltb_trans (a b c : float) :
  (a <=? b) = true -> (b <? c) = true -> (a <? c) = true.
Proof.
  rewrite FloatAxioms.leb_spec, !FloatAxioms.ltb_spec. apply SFleb_ltb_trans.
Qed.

(** *** [Math.min], [Math.max] and clipping *)

(** [Math.min] and [Math.max] of two numbers return one of the two, on the
    right side of both. *)
Lemma float_min_spec (a b : float) :
  is_nan a = false -> is_nan b = false ->
  let m := Binary64.float_min a b in
  (m = a \/ m = b) /\ (m <=? a) = true /\ (m <=? b) = true.
Proof.
  intros Ha Hb. unfold Binary64.float_min. rewrite Ha, Hb. cbn [orb].
  destruct (a <? b) eqn:E1.
  - repeat split; [left; reflexivity | apply leb_refl, Ha | apply ltb_leb, E1].
  - destruct (b <? a) eqn:E2.
    + repeat split; [right; reflexivity | apply ltb_leb, E2 | apply leb_refl, Hb].
    + destruct (get_sign a).
      * repeat split; [left; reflexivity | apply leb_refl, Ha |
                       apply not_ltb_leb; assumption].
      * repeat split; [right; reflexivity | apply not_ltb_leb; assumption |
                       apply leb_refl, Hb].
Qed.

Lemma float_max_spec (a b : float) :
  is_nan a = false -> is_nan b = false ->
  let m := Binary64.float_max a b in
  (m = a \/ m = b) /\ (a <=? m) = true /\ (b <=? m) = true.
Proof.
  intros Ha Hb. unfold Binary64.float_max. rewrite Ha, Hb. cbn [orb].
  destruct (a <? b) eqn:E1.
  - repeat split; [right; reflexivity | apply ltb_leb, E1 | apply leb_refl, Hb].
  - destruct (b <? a) eqn:E2.
    + repeat split; [left; reflexivity | apply leb_refl, Ha | apply ltb_leb, E2].
    + destruct (get_sign a).
      * repeat split; [right; reflexivity | apply not_ltb_leb; assumption |
                       apply leb_refl, Hb].
      * repeat split; [left; reflexivity | apply leb_refl, Ha |
                       apply not_ltb_leb; assumption].
Qed.

Lemma float_min_nan (a b : float) :
  is_nan (Binary64.float_min a b) = is_nan a || is_nan b.
Proof.
  destruct (is_nan a) eqn:Ha; [unfold Binary64.float_min; rewrite Ha; reflexivity|].
  destruct (is_nan b) eqn:Hb;
    [unfold Binary64.float_min; rewrite Ha, Hb; reflexivity|].
  destruct (float_min_spec a b Ha Hb) as [[E|E] _]; cbv zeta in E; rewrite E;
    cbn [orb]; assumption.
Qed.

Lemma float_max_nan (a b : float) :
  is_nan (Binary64.float_max a b) = is_nan a || is_nan b.
Proof.
  destruct (is_nan a) eqn:Ha; [unfold Binary64.float_max; rewrite Ha; reflexivity|].
  destruct (is_nan b) eqn:Hb;
    [unfold Binary64.float_max; rewrite Ha, Hb; reflexivity|].
  destruct (float_max_spec a b Ha Hb) as [[E|E] _]; cbv zeta in E; rewrite E;
    cbn [orb]; assumption.
Qed.

(** [Math.max(lo, Math.min(hi, x))] with [lo <= hi] is NaN exactly when [x]
    is, and otherwise lies between [lo] and [hi]. *)
Lemma clip_between (lo hi x : float) :
  (lo <=? hi) = true ->
  let r := Binary64.float_max lo (Binary64.float_min hi x) in
  is_nan r = is_nan x /\
  (is_nan x = false -> (lo <=? r) = true /\ (r <=? hi) = true).
Proof.
  intros Hle. cbv zeta.
  assert (Nlo : is_nan lo = false).
  { destruct (is_nan lo) eqn:E; [|reflexivity].
    rewrite (nan_leb_l lo hi E) in Hle. discriminate Hle. }
  assert (Nhi : is_nan hi = false).
  { destruct (is_nan hi) eqn:E; [|reflexivity].
    rewrite (nan_leb_r lo hi E) in Hle. discriminate Hle. }
  split.
  - rewrite float_max_nan, float_min_nan, Nlo, Nhi. reflexivity.
  - intros Nx.
    destruct (float_min_spec hi x Nhi Nx) as (Em & Hm1 & Hm2). cbv zeta in *.
    assert (Nm : is_nan (Binary64.float_min hi x) = false)
      by (rewrite float_min_nan, Nhi, Nx; reflexivity).
    destruct (float_max_spec lo (Binary64.float_min hi x) Nlo Nm)
      as (Er & Hr1 & Hr2). cbv zeta in *.
    split; [exact Hr1|].
    destruct Er as [-> | ->]; assumption.
Qed.

End Binary64Facts.

(** * More of the program on binary64 *)

Section MoreOnBinary64.

Import Binary64.
Close Scope Q_scope.
Local Open Scope float_scope.

(** ** [core/safe-math] *)

Lemma safeDivide_finite (a b fb : float) :
  is_finite fb = true -> is_finite (safeDivide a b fb) = true.
Proof.
  intros H. unfold safeDivide. cbv zeta.
  case_if; [exact H|]. case_if; assumption.
Qed.

Lemma abs_small_finite (b : float) :
  (PrimFloat.abs b <? 1e-10) = true -> is_finite b = true.
Proof.
  rewrite is_finite_spec, FloatAxioms.ltb_spec, abs_spec. unfold SFltb.
  destruct (Prim2SF b) as [s|s| |s m e]; try reflexivity; intros H; discriminate H.
Qed.

(** X1.  [safeDivide] never returns NaN or an infinity unless the fallback
    is one: with a finite fallback its result is finite.  It returns the
    fallback whenever the denominator is NaN or infinite (not the quotient,
    which for an infinite denominator would be a zero) and whenever the
    denominator is below [1e-10] in magnitude. *)
Theorem safeDivide_returns_a_finite_number_or_the_fallback
    (numerator denominator fallback : float) :
  (is_finite fallback = true ->
   is_finite (safeDivide numerator denominator fallback) = true) /\
  (is_finite denominator = false ->
   safeDivide numerator denominator fallback = fallback) /\
  ((Math_abs denominator <? 1e-10) = true ->
   safeDivide numerator denominator fallback = fallback).
Proof.
  repeat split.
  - apply safeDivide_finite.
  - intros H. unfold safeDivide, safeNumber. rewrite H. reflexivity.
  - intros H. unfold safeDivide, safeNumber.
    rewrite (abs_small_finite _ H). cbv zeta. rewrite H. reflexivity.
Qed.

(** X2.  [floatEqual] is symmetric in its two numbers, for every tolerance:
    binary64 subtraction in the two orders gives results of the same
    magnitude. *)
Theorem floatEqual_symmetric (a b epsilon : float) :
  floatEqual a b epsilon = floatEqual b a epsilon.
Proof.
  unfold floatEqual. cbn [Math_abs float_JSNumber].
  rewrite (abs_sub_sym a b). reflexivity.
Qed.

(** X3.  With a tolerance that is not negative, a number is approximately
    equal to itself exactly when it is finite: [floatEqual(a, a)] is [true]
    for every finite [a] and [false] for NaN and for the two infinities. *)
Theorem floatEqual_reflexive_on_finite_numbers (a epsilon : float) :
  (0 <=? epsilon) = true ->
  floatEqual a a epsilon = is_finite a.
Proof.
  intros He. unfold floatEqual. cbn [Math_abs float_JSNumber].
  destruct (is_finite a) eqn:Hf.
  - rewrite (abs_sub_diag a Hf). exact He.
  - rewrite FloatAxioms.leb_spec, abs_spec, sub_spec.
    rewrite is_finite_spec in Hf.
    destruct (Prim2SF a) as [s|s| |s m e]; try discriminate Hf.
    + destruct s; reflexivity.
    + reflexivity.
Qed.

Lemma floatEqual_reflexive_on_finite_numbers_witness :
  (0 <=? FLOAT_EPSILON) = true /\
  floatEqual 0.1 0.1 FLOAT_EPSILON = true /\
  floatEqual infinity infinity FLOAT_EPSILON = false.
Proof.
  split; [reflexivity|]. split.
  - exact (floatEqual_reflexive_on_finite_numbers 0.1 FLOAT_EPSILON eq_refl).
  - reflexivity.
Defined.

(** X4.  The strict comparisons exclude the non-strict ones in the other
    direction: [floatGt] and [floatLte] are never both true, nor are
    [floatLt] and [floatGte]; and when neither side of the underlying
    comparison is NaN, each is the negation of the other. *)
Theorem floatGt_complements_floatLte (a b epsilon : float) :
  (floatGt a b epsilon = true -> floatLte a b epsilon = false) /\
  (floatLt a b epsilon = true -> floatGte a b epsilon = false) /\
  (is_nan a = false -> is_nan (b + epsilon) = false ->
   floatLte a b epsilon = negb (floatGt a b epsilon)) /\
  (is_nan a = false -> is_nan (b - epsilon) = false ->
   floatGte a b epsilon = negb (floatLt a b epsilon)).
Proof.
  unfold floatGt, floatLte, floatLt, floatGte. repeat split.
  - apply ltb_not_leb.
  - apply ltb_not_leb.
  - intros Ha Hb. apply leb_negb_ltb; assumption.
  - intros Ha Hb. apply leb_negb_ltb; assumption.
Qed.

(** ** [core/normal-distribution] *)

(** X12.  For every [x > 0], and whatever [Math.exp] returns,
    [normalCDF(-x)] is computed as [1 - normalCDF(x)], exactly. *)
Theorem normalCDF_reflection (Math_exp : float -> float) (x : float) :
  (0 <? x) = true ->
  normalCDF Math_exp (- x) = 1 - normalCDF Math_exp x.
Proof.
  intros Hx.
  assert (H1 : (x <? 0) = false).
  { pose proof (ltb_not_leb _ _ Hx) as H.
    destruct (x <? 0) eqn:E; [|reflexivity].
    rewrite (ltb_leb _ _ E) in H. discriminate H. }
  assert (H2 : (- x <? 0) = true).
  { revert Hx. rewrite !FloatAxioms.ltb_spec, opp_spec. unfold SFltb.
    change (Prim2SF 0) with (S754_zero false).
    destruct (Prim2SF x) as [s|s| |s m e]; try destruct s; cbn;
      intros H; try discriminate H; reflexivity. }
  assert (H3 : - - x = x).
  { apply Prim2SF_inj. rewrite !opp_spec.
    destruct (Prim2SF x) as [s|s| |s m e]; try destruct s; reflexivity. }
  unfold normalCDF. cbv zeta.
  rewrite H1, H2, H3. reflexivity.
Qed.

Lemma normalCDF_reflection_witness :
  (0 <? 1.96) = true /\
  normalCDF (fun _ => 0.5) (- 1.96) = 1 - normalCDF (fun _ => 0.5) 1.96.
Proof.
  split; [reflexivity|].
  exact (normalCDF_reflection (fun _ => 0.5) 1.96 eq_refl).
Defined.

(** X13.  [normalInverse] answers from its cache by key.  After a call on
    [p] strictly between 0 and 1, a call on any [p'] strictly between 0 and
    1 whose ten-decimal rendering is that of [p] returns the value of the
    first call, whatever the rational approximation would give at [p']. *)
Theorem normalInverse_answers_from_the_cache
    (Math_log : float -> float) (toFixed10 : float -> string)
    (cache : LRUCache) (p p' : float) :
  (p <=? 0) = false -> (1 <=? p) = false ->
  (p' <=? 0) = false -> (1 <=? p') = false ->
  toFixed10 p' = toFixed10 p ->
  fst (normalInverse Math_log toFixed10
         (snd (normalInverse Math_log toFixed10 cache p)) p') =
  fst (normalInverse Math_log toFixed10 cache p).
Proof.
  intros A1 A2 B1 B2 Hk. unfold normalInverse. rewrite A1, A2, B1, B2, Hk.
  cbv zeta. unfold LRU_get at 2 3.
  destruct (cache_lookup (toFixed10 p) cache) as [v|] eqn:E; cbn [fst snd].
  - unfold LRU_get. cbn [cache_lookup]. rewrite String.eqb_refl. reflexivity.
  - rewrite LRU_get_put; [reflexivity|].
    unfold normalInverseCache_capacity. lia.
Qed.

(** Two probabilities that differ in the eleventh decimal, under one key. *)
Lemma normalInverse_answers_from_the_cache_witness :
  let Math_log := fun _ : float => 0 in
  let toFixed10 := fun _ : float => "0.9750000000"%string in
  ((0.975 <=? 0) = false /\ (1 <=? 0.975) = false /\
   (0.97500000001 <=? 0) = false /\ (1 <=? 0.97500000001) = false /\
   toFixed10 0.97500000001 = toFixed10 0.975) /\
  fst (normalInverse Math_log toFixed10
         (snd (normalInverse Math_log toFixed10 [] 0.975)) 0.97500000001) =
  fst (normalInverse Math_log toFixed10 [] 0.975).
Proof.
  cbv zeta. split; [repeat split|].
  exact (normalInverse_answers_from_the_cache
           (fun _ : float => 0) (fun _ : float => "0.9750000000"%string)
           [] 0.975 0.97500000001 eq_refl eq_refl eq_refl eq_refl eq_refl).
Defined.

Lemma normalInverse_step_invariant
    (Math_log : float -> float) (toFixed10 : float -> string)
    (cache : LRUCache) (p : float) :
  LRU_keys_unique cache /\ (LRU_size cache <= 25)%nat ->
  LRU_keys_unique (snd (normalInverse Math_log toFixed10 cache p)) /\
  (LRU_size (snd (normalInverse Math_log toFixed10 cache p)) <= 25)%nat.
Proof.
  intros H. unfold normalInverse.
  case_if; [exact H|]. case_if; [exact H|]. cbv zeta.
  pose proof (LRU_do_invariant 25 cache (call_get (toFixed10 p)) H) as Hg.
  cbn [LRU_do] in Hg.
  destruct (LRU_get (toFixed10 p) cache) as [[v|] cache1]; cbn [snd] in *.
  - exact Hg.
  - exact (LRU_do_invariant 25 cache1
             (call_put (toFixed10 p) (acklam Math_log p)) Hg).
Qed.

(** X14.  However often and on whatever arguments [normalInverse] is
    called, its cache holds at most 25 entries, under pairwise different
    keys. *)
Theorem normalInverse_cache_holds_at_most_25
    (Math_log : float -> float) (toFixed10 : float -> string) (ps : list float) :
  (LRU_size (normalInverse_cache_after Math_log toFixed10 ps) <= 25)%nat /\
  LRU_keys_unique (normalInverse_cache_after Math_log toFixed10 ps).
Proof.
  unfold normalInverse_cache_after.
  assert (H : forall c, LRU_keys_unique c /\ (LRU_size c <= 25)%nat ->
            LRU_keys_unique
              (fold_left (fun cache p => snd (normalInverse Math_log toFixed10 cache p))
                 ps c) /\
            (LRU_size
               (fold_left (fun cache p => snd (normalInverse Math_log toFixed10 cache p))
                  ps c) <= 25)%nat).
  { induction ps as [|p ps IH]; intros c Hc; cbn [fold_left].
    - exact Hc.
    - apply IH, normalInverse_step_invariant, Hc. }
  destruct (H []) as [Hu Hs].
  - split; [constructor | apply Nat.le_0_l].
  - split; assumption.
Qed.

(** ** [core/confidence-interval] *)

(** X15.  For every input, NaN and infinities included, the two limits
    returned by [calculateWilsonCI] are numbers (not NaN), the lower one at
    least 0 and the upper one at most 1. *)
Theorem calculateWilsonCI_within_unit_interval (x n z : float) :
  let ci := calculateWilsonCI x n z in
  is_nan (lower ci) = false /\ is_nan (upper ci) = false /\
  (0 <=? lower ci) = true /\ (upper ci <=? 1) = true.
Proof.
  cbv zeta. unfold calculateWilsonCI. cbv zeta.
  case_if; [cbn [lower upper]; repeat split|].
  cbn [lower upper].
  set (p := safeDivide (safeNumber x 0) (safeNumber n 1) 0).
  set (denom := 1 + safeDivide (z * z) (safeNumber n 1) 0).
  set (center := safeDivide _ denom p).
  set (margin := safeDivide _ denom 0).
  assert (Hp : is_finite p = true) by (apply safeDivide_finite; reflexivity).
  assert (Hc : is_finite center = true) by (apply safeDivide_finite, Hp).
  assert (Hm : is_finite margin = true) by (apply safeDivide_finite; reflexivity).
  change (Math_min margin 1) with (float_min margin 1).
  assert (Hs : is_finite (float_min margin 1) = true).
  { destruct (float_min_spec margin 1 (is_finite_not_nan _ Hm) eq_refl)
      as [[E|E] _]; cbv zeta in E; rewrite E; [exact Hm | reflexivity]. }
  pose proof (sub_finite_not_nan _ _ Hc Hs) as Nl.
  pose proof (add_finite_not_nan _ _ Hc Hs) as Nu.
  destruct (float_max_spec 0 (center - float_min margin 1) eq_refl Nl)
    as (_ & L1 & _).
  destruct (float_min_spec 1 (center + float_min margin 1) eq_refl Nu)
    as (_ & U1 & _).
  cbv zeta in *.
  change (Math_max 0) with (float_max 0). change (Math_min 1) with (float_min 1).
  rewrite float_max_nan, float_min_nan, Nl, Nu.
  repeat split; assumption.
Qed.

(** ** [result-validation/two-group]: the two solvers *)

(** X16.  For every input, the second proportion returned by binary64
    [calculateFMRMLE] is NaN exactly when the sum of the first proportion and
    [delta0] is, and otherwise lies between [0.001] and [0.999]. *)
Theorem calculateFMRMLE_clips_the_second_rate (p1_obs p2_obs n1 n2 delta0 : float) :
  let p1 := p1_rmle (calculateFMRMLE p1_obs p2_obs n1 n2 delta0) in
  let p2 := p2_rmle (calculateFMRMLE p1_obs p2_obs n1 n2 delta0) in
  is_nan p2 = is_nan (p1 + delta0) /\
  (is_nan p2 = false -> (0.001 <=? p2) = true /\ (p2 <=? 0.999) = true).
Proof.
  cbv zeta. unfold calculateFMRMLE. cbv zeta. cbn [p1_rmle p2_rmle].
  match goal with
  | |- context [FMRMLE_loop ?a ?b ?c ?d ?e ?f ?g ?h] =>
      generalize (FMRMLE_loop a b c d e f g h)
  end.
  intros p1_est.
  change (Math_max '0.001 (Math_min '0.999 (p1_est + delta0)))%js
    with (float_max 0.001 (float_min 0.999 (p1_est + delta0))).
  destruct (clip_between 0.001 0.999 (p1_est + delta0) eq_refl) as [N R].
  cbv zeta in N, R. split; [exact N|].
  intros H. apply R. rewrite <- N. exact H.
Qed.

(** X17.  When no first proportion is feasible ([p1_min >= p1_max], with
    [|delta0| >= 1e-10]), binary64 [calculateMNConstrainedMLE] returns two
    proportions each of which is NaN or lies between [1e-8] and
    [1 - 1e-8]. *)
Theorem calculateMNConstrainedMLE_clips_when_nothing_is_feasible
    (x1 n1 x2 n2 delta0 : float) :
  (Math_abs delta0 <? '1e-10)%js = false ->
  (MN_p1_min delta0 >=? MN_p1_max delta0)%js = true ->
  let r := calculateMNConstrainedMLE x1 n1 x2 n2 delta0 in
  (is_nan (p1_mle r) = false ->
   (1e-8 <=? p1_mle r) = true /\ (p1_mle r <=? 1 - 1e-8) = true) /\
  (is_nan (p2_mle r) = false ->
   (1e-8 <=? p2_mle r) = true /\ (p2_mle r <=? 1 - 1e-8) = true).
Proof.
  intros Hd Hf. cbv zeta. unfold calculateMNConstrainedMLE. cbv zeta.
  rewrite Hd, Hf. cbn [p1_mle p2_mle].
  generalize ((MN_p1_min delta0 + MN_p1_max delta0) / '2)%js. intros mid.
  change (Math_max '1e-8 (Math_min ('1 - '1e-8) mid))%js
    with (float_max 1e-8 (float_min (1 - 1e-8) mid)).
  set (p1 := float_max 1e-8 (float_min (1 - 1e-8) mid)).
  change (Math_max '1e-8 (Math_min ('1 - '1e-8) (p1 + delta0)))%js
    with (float_max 1e-8 (float_min (1 - 1e-8) (p1 + delta0))).
  destruct (clip_between 1e-8 (1 - 1e-8) mid eq_refl) as [N1 R1].
  destruct (clip_between 1e-8 (1 - 1e-8) (p1 + delta0) eq_refl) as [N2 R2].
  cbv zeta in N1, R1, N2, R2. fold p1 in N1, R1.
  split; intros H.
  - apply R1. rewrite <- N1. exact H.
  - apply R2. rewrite <- N2. exact H.
Qed.

(** A hypothesised difference of [1]: the feasible interval is empty and
    the two proportions are the two ends of the clip. *)
Lemma calculateMNConstrainedMLE_clips_when_nothing_is_feasible_witness :
  let r := calculateMNConstrainedMLE 5 10 5 10 1 in
  ((Math_abs 1 <? '1e-10)%js = false /\
   (MN_p1_min 1 >=? MN_p1_max 1)%js = true) /\
  ((1e-8 <=? p1_mle r) = true /\ (p1_mle r <=? 1 - 1e-8) = true) /\
  ((1e-8 <=? p2_mle r) = true /\ (p2_mle r <=? 1 - 1e-8) = true).
Proof.
  cbv zeta. split; [split; reflexivity|].
  pose proof (calculateMNConstrainedMLE_clips_when_nothing_is_feasible
                5 10 5 10 1 eq_refl eq_refl) as H.
  cbv zeta in H. split; [apply (proj1 H) | apply (proj2 H)]; reflexivity.
Defined.

(** ** [result-validation/two-group]: the result functions *)

Lemma rates_finite (n1 s1 n2 s2 : float) (useContinuity : bool) :
  is_finite (fst (rates n1 s1 n2 s2 useContinuity)) = true /\
  is_finite (snd (rates n1 s1 n2 s2 useContinuity)) = true.
Proof.
  unfold rates. destruct useContinuity; cbn [fst snd]; split;
    apply safeDivide_finite; reflexivity.
Qed.

(** A zero divided safely, with fallback [0], is a zero. *)
Lemma safeDivide_zero (a b : float) :
  is_zero a = true -> is_zero (safeDivide a b 0) = true.
Proof.
  intros Ha. unfold safeDivide. cbv zeta.
  case_if; [reflexivity|].
  case_if; [|reflexivity].
  match goal with H : is_finite ?r = true |- _ => revert H end.
  assert (Ea : safeNumber a 0 = a).
  { unfold safeNumber. rewrite is_finite_spec. rewrite is_zero_spec in Ha.
    destruct (Prim2SF a); try discriminate Ha. reflexivity. }
  rewrite Ea. cbn [divide float_JSNumber].
  rewrite is_finite_spec, is_zero_spec, div_spec. rewrite is_zero_spec in Ha.
  destruct (Prim2SF a) as [sa|sa| |sa ma ea]; try discriminate Ha.
  destruct (Prim2SF (safeNumber b 0)) as [sb|sb| |sb mb eb]; cbn;
    intros H; try discriminate H; reflexivity.
Qed.

(** For a rate [p] that is a zero, [p * (1 - p)] is a zero. *)
Lemma zero_rate_variance (p : float) : is_zero p = true -> is_zero (p * (1 - p)) = true.
Proof.
  rewrite !is_zero_spec, mul_spec, sub_spec.
  change (Prim2SF 1) with (S754_finite false 4503599627370496 (-52)).
  destruct (Prim2SF p) as [s|s| |s m e]; intros H; try discriminate H.
  reflexivity.
Qed.

Lemma sqrt_sum_of_zeros (a b : float) :
  is_zero a = true -> is_zero b = true -> is_zero (PrimFloat.sqrt (a + b)) = true.
Proof.
  rewrite !is_zero_spec, sqrt_spec, add_spec.
  destruct (Prim2SF a) as [sa|sa| |sa ma ea]; intros Ha; try discriminate Ha.
  destruct (Prim2SF b) as [sb|sb| |sb mb eb]; intros Hb; try discriminate Hb.
  destruct sa, sb; reflexivity.
Qed.

Section ResultFunctions.

Variables (Math_exp Math_log : float -> float) (Math_pow : float -> float -> float)
          (toFixed10 : float -> string).

(** X18.  For every input and every method, a proportion result function
    sets its success flag only if the limits it reports meet its criterion:
    [ci_lower > -delta] for non-inferiority, [ci_lower > 0] for superiority,
    [ci_lower > -delta] and [ci_upper < delta] for equivalence ([delta] as
    sanitised).  In particular no early return sets the flag. *)
Theorem success_only_with_the_interval_inside_the_margin
    (cache : LRUCache) (n1 s1 n2 s2 delta alpha : float)
    (useContinuity : bool) (method : string) :
  let ni := fst (calculateNIResult Math_exp Math_log Math_pow toFixed10
                   cache n1 s1 n2 s2 delta alpha useContinuity method) in
  let sup := fst (calculateSupResult Math_exp Math_log Math_pow toFixed10
                    cache n1 s1 n2 s2 alpha useContinuity method) in
  let eq := fst (calculateEqResult Math_exp Math_log Math_pow toFixed10
                   cache n1 s1 n2 s2 delta alpha useContinuity method) in
  (Result.isNonInferior ni = true ->
   (Result.ci_lower ni >? - safeNumber delta 0) = true) /\
  (Result.isNonInferior sup = true -> (Result.ci_lower sup >? 0) = true) /\
  (Result.isNonInferior eq = true ->
   (Result.ci_lower eq >? - safeNumber delta 0) = true /\
   (Result.ci_upper eq <? safeNumber delta 0) = true).
Proof.
  cbv zeta. split; [|split].
  - unfold calculateNIResult. cbv zeta.
    destruct (rates _ _ _ _ _) as [p1 p2].
    destruct (normalInverse _ _ _ _) as [z_alpha cache1]. cbv beta iota zeta.
    repeat case_if; cbn [fst Result.isNonInferior Result.ci_lower]; intros H;
      first [exact H | discriminate H].
  - unfold calculateSupResult. cbv zeta.
    destruct (rates _ _ _ _ _) as [p1 p2].
    destruct (normalInverse _ _ _ _) as [z_alpha cache1]. cbv beta iota zeta.
    repeat case_if; cbn [fst Result.isNonInferior Result.ci_lower]; intros H;
      first [exact H | discriminate H].
  - unfold calculateEqResult. cbv zeta.
    destruct (rates _ _ _ _ _) as [p1 p2].
    destruct (normalInverse _ _ _ _) as [z_alpha cache1]. cbv beta iota zeta.
    case_if; [intros H; discriminate H|].
    destruct (calculateEqResult_method _ _ _ _ _ _ _ _ _ _) as [[[lo hi] se]|];
      [|intros H; discriminate H].
    cbn [fst Result.isNonInferior Result.ci_lower Result.ci_upper]. intros H.
    apply andb_prop in H. exact H.
Qed.

(** X19.  For every input, a continuous-endpoint result function sets its
    success flag only if the limits it reports meet its criterion:
    [ci_lower > -delta] for non-inferiority, [ci_lower > 0] for superiority,
    [ci_lower > -delta] and [ci_upper < delta] for equivalence ([delta] as
    sanitised).  In particular no early return sets the flag. *)
Theorem continuous_success_only_with_the_interval_inside_the_margin
    (cache : LRUCache) (n1 mean1 sd1 n2 mean2 sd2 delta alpha : float) :
  let ni := fst (calculateNIResultContinuous Math_exp Math_log toFixed10
                   cache n1 mean1 sd1 n2 mean2 sd2 delta alpha) in
  let sup := fst (calculateSupResultContinuous Math_exp Math_log toFixed10
                    cache n1 mean1 sd1 n2 mean2 sd2 alpha) in
  let eq := fst (calculateEqResultContinuous Math_exp Math_log toFixed10
                   cache n1 mean1 sd1 n2 mean2 sd2 delta alpha) in
  (ResultContinuous.isNonInferior ni = true ->
   (ResultContinuous.ci_lower ni >? - safeNumber delta 0) = true) /\
  (ResultContinuous.isNonInferior sup = true ->
   (ResultContinuous.ci_lower sup >? 0) = true) /\
  (ResultContinuous.isNonInferior eq = true ->
   (ResultContinuous.ci_lower eq >? - safeNumber delta 0) = true /\
   (ResultContinuous.ci_upper eq <? safeNumber delta 0) = true).
Proof.
  cbv zeta. split; [|split].
  - unfold calculateNIResultContinuous. cbv zeta.
    case_if; [intros H; discriminate H|].
    destruct (normalInverse _ _ _ _) as [z_alpha cache1]. cbv beta iota zeta.
    case_if; [intros H; discriminate H|].
    cbn [fst ResultContinuous.isNonInferior ResultContinuous.ci_lower].
    intros H; exact H.
  - unfold calculateSupResultContinuous. cbv zeta.
    case_if; [intros H; discriminate H|].
    destruct (normalInverse _ _ _ _) as [z_alpha cache1]. cbv beta iota zeta.
    case_if; [intros H; discriminate H|].
    cbn [fst ResultContinuous.isNonInferior ResultContinuous.ci_lower].
    intros H; exact H.
  - unfold calculateEqResultContinuous. cbv zeta.
    case_if; [intros H; discriminate H|].
    destruct (normalInverse _ _ _ _) as [z_alpha cache1]. cbv beta iota zeta.
    case_if; [intros H; discriminate H|].
    cbn [fst ResultContinuous.isNonInferior ResultContinuous.ci_lower
         ResultContinuous.ci_upper].
    intros H. apply andb_prop in H. exact H.
Qed.

(** X20.  For every input, NaN and infinities included, and every method,
    the rates [p1] and [p2] that a proportion result function reports are
    finite numbers and the difference [diff] it reports is not NaN. *)
Theorem reported_rates_are_finite
    (cache : LRUCache) (n1 s1 n2 s2 delta alpha : float)
    (useContinuity : bool) (method : string) :
  let ok (r : Result.t) :=
    is_finite (Result.p1 r) = true /\ is_finite (Result.p2 r) = true /\
    is_nan (Result.diff r) = false in
  ok (fst (calculateNIResult Math_exp Math_log Math_pow toFixed10
             cache n1 s1 n2 s2 delta alpha useContinuity method)) /\
  ok (fst (calculateSupResult Math_exp Math_log Math_pow toFixed10
             cache n1 s1 n2 s2 alpha useContinuity method)) /\
  ok (fst (calculateEqResult Math_exp Math_log Math_pow toFixed10
             cache n1 s1 n2 s2 delta alpha useContinuity method)).
Proof.
  cbv zeta.
  assert (E : is_finite (Result.p1 early_return) = true /\
              is_finite (Result.p2 early_return) = true /\
              is_nan (Result.diff early_return) = false) by (repeat split).
  pose proof (rates_finite (safeNumber n1 1) (safeNumber s1 0)
                (safeNumber n2 1) (safeNumber s2 0) useContinuity) as [F1 F2].
  pose proof (sub_finite_not_nan _ _ F2 F1) as F3.
  split; [|split].
  - unfold calculateNIResult. cbv zeta.
    destruct (rates _ _ _ _ _) as [p1 p2]. cbn [fst snd] in F1, F2, F3.
    destruct (normalInverse _ _ _ _) as [z_alpha cache1]. cbv beta iota zeta.
    repeat case_if; first [exact E | cbn [fst Result.p1 Result.p2 Result.diff]; auto].
  - unfold calculateSupResult. cbv zeta.
    destruct (rates _ _ _ _ _) as [p1 p2]. cbn [fst snd] in F1, F2, F3.
    destruct (normalInverse _ _ _ _) as [z_alpha cache1]. cbv beta iota zeta.
    repeat case_if; first [exact E | cbn [fst Result.p1 Result.p2 Result.diff]; auto].
  - unfold calculateEqResult. cbv zeta.
    destruct (rates _ _ _ _ _) as [p1 p2]. cbn [fst snd] in F1, F2, F3.
    destruct (normalInverse _ _ _ _) as [z_alpha cache1]. cbv beta iota zeta.
    case_if; [exact E|].
    destruct (calculateEqResult_method _ _ _ _ _ _ _ _ _ _) as [[[lo hi] se]|];
      [|exact E].
    cbn [fst Result.p1 Result.p2 Result.diff]. auto.
Qed.

(** X21.  With no success in either group and no continuity correction,
    the Wald branch (any method other than ["fm"], ["wilson"], ["mn"]) of
    each proportion result function finds a standard error of zero and
    returns the early-return object, for all sample sizes, margins and
    levels: limits [0], p-value [1], success flag [false]. *)
Theorem wald_without_events_returns_the_early_return_object
    (cache : LRUCache) (n1 n2 delta alpha : float) (method : string) :
  String.eqb method "fm" = false ->
  String.eqb method "wilson" = false ->
  String.eqb method "mn" = false ->
  fst (calculateNIResult Math_exp Math_log Math_pow toFixed10
         cache n1 0 n2 0 delta alpha false method) = early_return /\
  fst (calculateSupResult Math_exp Math_log Math_pow toFixed10
         cache n1 0 n2 0 alpha false method) = early_return /\
  fst (calculateEqResult Math_exp Math_log Math_pow toFixed10
         cache n1 0 n2 0 delta alpha false method) = early_return.
Proof.
  intros M1 M2 M3.
  assert (Hse : forall n1' n2' : float,
            let p1 := safeDivide 0 n1' 0 in
            let p2 := safeDivide 0 n2' 0 in
            (PrimFloat.sqrt (safeDivide (p1 * (1 - p1)) n1' 0 +
                             safeDivide (p2 * (1 - p2)) n2' 0) =? 0) = true).
  { intros n1' n2'. cbv zeta. change (?x =? 0) with (is_zero x).
    apply sqrt_sum_of_zeros; apply safeDivide_zero, zero_rate_variance,
      safeDivide_zero; reflexivity. }
  split; [|split].
  - unfold calculateNIResult, rates. cbv zeta.
    change (safeNumber 0 0) with 0.
    destruct (normalInverse _ _ _ _) as [z_alpha cache1]. cbv beta iota zeta.
    case_if; [reflexivity|].
    rewrite M1, M2, M3.
    cbn [Math_sqrt float_JSNumber]. rewrite Hse, Bool.orb_true_r. reflexivity.
  - unfold calculateSupResult, rates. cbv zeta.
    change (safeNumber 0 0) with 0.
    destruct (normalInverse _ _ _ _) as [z_alpha cache1]. cbv beta iota zeta.
    case_if; [reflexivity|].
    rewrite M1, M2, M3.
    cbn [Math_sqrt float_JSNumber]. rewrite Hse, Bool.orb_true_r. reflexivity.
  - unfold calculateEqResult, rates. cbv zeta.
    change (safeNumber 0 0) with 0.
    destruct (normalInverse _ _ _ _) as [z_alpha cache1]. cbv beta iota zeta.
    case_if; [reflexivity|].
    unfold calculateEqResult_method. rewrite M1, M2, M3. cbv zeta.
    cbn [Math_sqrt float_JSNumber]. rewrite Hse, Bool.orb_true_r. reflexivity.
Qed.

End ResultFunctions.

(** No success among 50 in either group, margin [0.1], [alpha = 0.025]. *)
Lemma wald_without_events_returns_the_early_return_object_witness :
  (String.eqb "wald" "fm" = false /\ String.eqb "wald" "wilson" = false /\
   String.eqb "wald" "mn" = false) /\
  fst (calculateNIResult (fun _ => 0) (fun _ => 0) (fun _ _ => 0)
         (fun _ => "0.9750000000"%string)
         [] 50 0 50 0 0.1 0.025 false "wald") = early_return.
Proof.
  split; [repeat split|].
  exact (proj1 (wald_without_events_returns_the_early_return_object
                  (fun _ => 0) (fun _ => 0) (fun _ _ => 0)
                  (fun _ => "0.9750000000"%string)
                  [] 50 50 0.1 0.025 "wald" eq_refl eq_refl eq_refl)).
Defined.

(** ** [core/effect-size] *)

(** X25.  The interpretation of an effect size does not depend on its
    sign. *)
Theorem interpretCohenD_ignores_the_sign (d : float) :
  interpretCohenD (- d) = interpretCohenD d.
Proof.
  unfold interpretCohenD. cbn [Math_abs float_JSNumber].
  rewrite abs_opp. reflexivity.
Qed.

(** X26.  The interpretation is monotone in the magnitude: of two effect
    sizes with [|d1| <= |d2|] the first is never put on a higher level
    (negligible, small, medium, large) than the second. *)
Theorem interpretCohenD_is_monotone (d1 d2 : float) :
  (PrimFloat.abs d1 <=? PrimFloat.abs d2) = true ->
  (level_rank (Interpretation.level (interpretCohenD d1)) <=
   level_rank (Interpretation.level (interpretCohenD d2)))%nat.
Proof.
  intros H. unfold interpretCohenD. cbv zeta. cbn [Math_abs float_JSNumber].
  assert (N1 : is_nan (PrimFloat.abs d1) = false).
  { destruct (is_nan (PrimFloat.abs d1)) eqn:E; [|reflexivity].
    rewrite (nan_leb_l _ _ E) in H. discriminate H. }
  assert (N2 : is_nan (PrimFloat.abs d2) = false).
  { destruct (is_nan (PrimFloat.abs d2)) eqn:E; [|reflexivity].
    rewrite (nan_leb_r _ _ E) in H. discriminate H. }
  rewrite N1, N2.
  pose proof (leb_ltb_trans _ _ 0.2 H) as T2.
  pose proof (leb_ltb_trans _ _ 0.5 H) as T5.
  pose proof (leb_ltb_trans _ _ 0.8 H) as T8.
  destruct (PrimFloat.abs d2 <? 0.2).
  { rewrite (T2 eq_refl). apply le_n. }
  destruct (PrimFloat.abs d2 <? 0.5).
  { rewrite (T5 eq_refl). destruct (PrimFloat.abs d1 <? 0.2); cbn; lia. }
  destruct (PrimFloat.abs d2 <? 0.8).
  { rewrite (T8 eq_refl).
    destruct (PrimFloat.abs d1 <? 0.2), (PrimFloat.abs d1 <? 0.5); cbn; lia. }
  destruct (PrimFloat.abs d1 <? 0.2), (PrimFloat.abs d1 <? 0.5),
           (PrimFloat.abs d1 <? 0.8); cbn; lia.
Qed.

Lemma interpretCohenD_is_monotone_witness :
  (PrimFloat.abs 0.3 <=? PrimFloat.abs (-0.9)) = true /\
  (level_rank (Interpretation.level (interpretCohenD 0.3)) <=
   level_rank (Interpretation.level (interpretCohenD (-0.9))))%nat.
Proof.
  split; [reflexivity|].
  exact (interpretCohenD_is_monotone 0.3 (-0.9) eq_refl).
Defined.

(** The two guards [!sigma] and [sigma <= 0] of [calculateCohenD] together
    say that [sigma] is not a number above zero. *)
Lemma positive_or_not (sigma : float) :
  (is_zero sigma || is_nan sigma) || (sigma <=? 0) = negb (0 <? sigma).
Proof.
  rewrite is_zero_spec, is_nan_spec, FloatAxioms.leb_spec, FloatAxioms.ltb_spec.
  change (Prim2SF 0) with (S754_zero false).
  destruct (Prim2SF sigma) as [s|s| |s m e]; try destruct s; reflexivity.
Qed.

(** X27.  [getEffectSizeInfo] divides exactly when [sigma] is a number above
    zero; for every other [sigma] (zero, negative, NaN) it returns the
    undefined object: [d] NaN, [dStr] a dash, level ["undefined"]. *)
Theorem getEffectSizeInfo_is_undefined_without_a_positive_sigma
    (toFixed2 : float -> string) (meanDiff sigma : float) :
  let info := getEffectSizeInfo toFixed2 meanDiff sigma in
  if 0 <? sigma
  then CohenD.d info = meanDiff / sigma
  else info = CohenD.mk nan "-" "undefined" "未定义".
Proof.
  cbv zeta. unfold getEffectSizeInfo, calculateCohenD.
  rewrite positive_or_not. destruct (0 <? sigma); reflexivity.
Qed.

(** X28.  The level and the label that [getEffectSizeInfoProportion]
    reports for two rates do not depend on the order in which the rates are
    given, whatever [Math.asin] returns. *)
Theorem getEffectSizeInfoProportion_level_ignores_the_order
    (Math_asin : float -> float) (toFixed2 : float -> string) (p1 p2 : float) :
  let info12 := getEffectSizeInfoProportion Math_asin toFixed2 p1 p2 in
  let info21 := getEffectSizeInfoProportion Math_asin toFixed2 p2 p1 in
  CohenH.level info12 = CohenH.level info21 /\
  CohenH.label info12 = CohenH.label info21.
Proof.
  cbv zeta. unfold getEffectSizeInfoProportion. cbv zeta.
  cbn [CohenH.level CohenH.label].
  assert (E : interpretCohenH (calculateCohenH Math_asin p1 p2) =
              interpretCohenH (calculateCohenH Math_asin p2 p1)).
  { unfold interpretCohenH, calculateCohenH. cbv zeta.
    destruct (p1 <? 0), (1 <? p1), (p2 <? 0), (1 <? p2); cbn [orb];
      try reflexivity.
    unfold interpretCohenD. cbn [Math_abs float_JSNumber].
    rewrite abs_sub_sym. reflexivity. }
  rewrite E. split; reflexivity.
Qed.

End MoreOnBinary64.

